(** * Starfield and phase sequencer of [src/App.tsx]

    A shallow embedding of the single React component [App]: the timer-driven
    phase sequencer, the input-to-speed coupling, the action trigger and the
    per-frame starfield step, together with the properties the specification
    states about them.

    The component is modelled as a state machine over the events of the
    browser: time passing (the event loop runs the timers that fall due, in
    order, each at its due time), an animation frame, a resize of the
    window, an edit of the textarea, a click on the button, and the unmount.
    The state is split in two records: [Control] holds the hooks the
    sequencer, the coupling effect and the click handler use, together with
    the clock and the timer table; [Render] holds the refs and browser
    objects of the renderer effect.

    JavaScript numbers are modelled by exact rationals ([Q]) in the state
    machine, so rounding of doubles is not part of it; where rounding
    decides the answer, in the long-run behaviour of the easing step, the
    step is modelled a second time in binary64 ([easeF], over the primitive
    floats).  Wall-clock times (ms) and pixel sizes of the window are
    modelled by [N]; a text by the [string] of its UTF-8 bytes;
    [Math.random()] by an oracle [random : nat -> Q] indexed by the number
    of earlier calls.  The audio effect, the focus flag and the markup do
    not touch the state modelled here and are left out. *)

From Stdlib Require Import QArith Qminmax Qabs Lqa Lia.
From Stdlib Require Import NArith ZArith List String Ascii Bool.
From Stdlib Require Import Floats.
Import ListNotations.
Open Scope Q_scope.

(** ** Numbers *)

(** [a < b] and [a <= b] of the source, as booleans. *)
Definition Qltb (a b : Q) : bool := negb (Qle_bool b a).
Definition Qleb (a b : Q) : bool := Qle_bool a b.

(** A pixel count seen as a number. *)
Definition px (n : N) : Q := inject_Z (Z.of_N n).

(** ** Data model *)

Inductive AppPhase := silence | breath | awakening | ready.

Module Star.
Record t := mk { x : Q; y : Q; z : Q; prevX : option Q; prevY : option Q }.
End Star.

(** What the 2D context is asked to paint. *)
Inductive DrawCmd :=
| FillRect (alpha w h : Q)
| Stroke (fromX fromY toX toY alpha lineWidth : Q)
| FillArc (cx cy radius alpha : Q).

Definition NUM_STARS : nat := 100.
Definition MAX_Z : Q := 2.5.
Definition MIN_Z : Q := 0.001.

(** The speeds the component stores in [targetSpeedRef]. *)
Definition INITIAL_SPEED : Q := 0.001.
Definition IDLE_SPEED : Q := 0.002.
Definition THINKING_SPEED : Q := 0.003.
Definition BURST_SPEED : Q := 0.018.
Definition SUSTAINED_SPEED : Q := 0.006.

(** [speedRef.current += (targetSpeedRef.current - speedRef.current) * 0.05] *)
Definition ease (speed target : Q) : Q := speed + (target - speed) * 0.05.

(** The same line as the browser runs it, in binary64 with rounding to
    nearest after each of the three operations; the literals are the
    doubles nearest to the decimals of the source. *)
Set Warnings "-inexact-float".



Definition offSurface (w h sx sy : Q) : bool :=
  Qltb sx (-50) || Qltb (w + 50) sx || Qltb sy (-50) || Qltb (h + 50) sy.

Definition project (star : Star.t) (centerX centerY : Q) : Q * Q :=
  let scale := 1 / Star.z star in
  (Star.x star * scale * centerX + centerX,
   Star.y star * scale * centerY + centerY).

Definition starSize (star : Star.t) : Q := Qmax 0 ((1 - Star.z star / MAX_Z) * 2).
Definition starOpacity (star : Star.t) : Q := Qmin 1 ((1 - Star.z star / MAX_Z) * 1.5).

(** The trail of lines 126-133: drawn only from a defined previous
    projection and only for a near star. *)
Definition trail (star : Star.t) (sx sy : Q) : list DrawCmd :=
  match Star.prevX star, Star.prevY star with
  | Some fromX, Some fromY =>
      if Qltb (Star.z star) 0.5
      then [Stroke fromX fromY sx sy (starOpacity star * 0.6) (starSize star * 0.5)]
      else []
  | _, _ => []
  end.

(** Lines 115-141: projection, off-surface return, painting, and the store
    of the projection as the next frame's previous projection. *)
Definition drawStar (w h centerX centerY : Q) (star : Star.t)
  : Star.t * list DrawCmd :=
  let '(sx, sy) := project star centerX centerY in
  if offSurface w h sx sy then (star, [])
  else
    (Star.mk (Star.x star) (Star.y star) (Star.z star) (Some sx) (Some sy),
     trail star sx sy ++ [FillArc sx sy (starSize star) (starOpacity star)]).

Section Random.

(** [Math.random()]: the [k]-th call of the session returns [random k]. *)
Variable random : nat -> Q.

Definition randomCoord (k : nat) : Q := (random k - 0.5) * 2.

(** Lines 84-88: one star of [initStars], drawing three random numbers. *)
Definition initStar (k : nat) : Star.t :=
  Star.mk (randomCoord k) (randomCoord (1 + k))
          (random (2 + k) * (MAX_Z - MIN_Z) + MIN_Z) None None.

Fixpoint initStarsFrom (n k : nat) : list Star.t :=
  match n with
  | O => []
  | S n' => initStar k :: initStarsFrom n' (3 + k)
  end.

(** Lines 105-113: the decrement of [z] and the respawn; the result carries
    the number of [Math.random()] calls made so far. *)
Definition advanceStar (speed : Q) (k : nat) (star : Star.t) : Star.t * nat :=
  let z' := Star.z star - speed in
  if Qleb z' MIN_Z
  then (Star.mk (randomCoord k) (randomCoord (1 + k)) MAX_Z None None, (2 + k)%nat)
  else (Star.mk (Star.x star) (Star.y star) z' (Star.prevX star) (Star.prevY star), k).

(** The body of [starsRef.current.forEach] for one star. *)
Definition stepStar (speed w h centerX centerY : Q) (k : nat) (star : Star.t)
  : Star.t * list DrawCmd * nat :=
  let '(moved, k') := advanceStar speed k star in
  let '(drawn, cmds) := drawStar w h centerX centerY moved in
  (drawn, cmds, k').

Fixpoint stepStars (speed w h centerX centerY : Q) (k : nat) (stars : list Star.t)
  : list Star.t * list DrawCmd * nat :=
  match stars with
  | [] => ([], [], k)
  | star :: rest =>
      let '(star', cmds, k') := stepStar speed w h centerX centerY k star in
      let '(rest', cmds', k'') := stepStars speed w h centerX centerY k' rest in
      (star' :: rest', cmds ++ cmds', k'')
  end.

End Random.

(** ** Strings *)

Open Scope string_scope.

(** A text is held as the bytes of its UTF-8 encoding (a lone surrogate in
    its three-byte generalised form), so that every JavaScript string has
    one [string] and equal texts have equal bytes; a text is empty exactly
    when it has no byte.  [code] is the value of a byte. *)
Definition code (c : ascii) : nat := nat_of_ascii c.

(** The characters [String.prototype.trim] strips are those of ECMAScript's
    WhiteSpace and LineTerminator classes.  In one byte: TAB, LF, VT, FF, CR
    and SPACE. *)
Definition isWhiteSpace1 (a : ascii) : bool :=
  Nat.eqb (code a) 32 || (Nat.leb 9 (code a) && Nat.leb (code a) 13).

(** In two bytes: U+00A0 NO-BREAK SPACE, [C2 A0]. *)
Definition isWhiteSpace2 (a b : ascii) : bool :=
  Nat.eqb (code a) 194 && Nat.eqb (code b) 160.

(** In three bytes: U+1680 [E1 9A 80]; U+2000 to U+200A [E2 80 80] to
    [E2 80 8A]; U+2028 and U+2029 [E2 80 A8], [E2 80 A9]; U+202F
    [E2 80 AF]; U+205F [E2 81 9F]; U+3000 [E3 80 80]; U+FEFF [EF BB BF]. *)
Definition isWhiteSpace3 (a b c : ascii) : bool :=
  (Nat.eqb (code a) 225 && Nat.eqb (code b) 154 && Nat.eqb (code c) 128)
  || (Nat.eqb (code a) 226 && Nat.eqb (code b) 128
      && ((Nat.leb 128 (code c) && Nat.leb (code c) 138)
          || Nat.eqb (code c) 168 || Nat.eqb (code c) 169 || Nat.eqb (code c) 175))
  || (Nat.eqb (code a) 226 && Nat.eqb (code b) 129 && Nat.eqb (code c) 159)
  || (Nat.eqb (code a) 227 && Nat.eqb (code b) 128 && Nat.eqb (code c) 128)
  || (Nat.eqb (code a) 239 && Nat.eqb (code b) 187 && Nat.eqb (code c) 191).

(** [s] is one white-space character. *)
Definition isWhiteSpace (s : string) : bool :=
  match s with
  | String a EmptyString => isWhiteSpace1 a
  | String a (String b EmptyString) => isWhiteSpace2 a b
  | String a (String b (String c EmptyString)) => isWhiteSpace3 a b c
  | _ => false
  end.

(** The text after its first character, when that character is white
    space. *)
Definition whiteSpaceHead (s : string) : option string :=
  match s with
  | String a r1 =>
      if isWhiteSpace1 a then Some r1
      else match r1 with
           | String b r2 =>
               if isWhiteSpace2 a b then Some r2
               else match r2 with
                    | String c r3 => if isWhiteSpace3 a b c then Some r3 else None
                    | EmptyString => None
                    end
           | EmptyString => None
           end
  | EmptyString => None
  end.

(** White space is stripped from the start, one character at a time. *)
Fixpoint trimStart (s : string) : string :=
  match s with
  | EmptyString => EmptyString
  | String a r1 =>
      if isWhiteSpace1 a then trimStart r1
      else match r1 with
           | String b r2 =>
               if isWhiteSpace2 a b then trimStart r2
               else match r2 with
                    | String c r3 => if isWhiteSpace3 a b c then trimStart r3 else s
                    | EmptyString => s
                    end
           | EmptyString => s
           end
  end.

(** White space is stripped from the end: what is kept of [a :: rest] is
    [a] before what is kept of [rest], unless that is one white-space
    character, which goes too. *)
Fixpoint trimEnd (s : string) : string :=
  match s with
  | EmptyString => EmptyString
  | String a rest =>
      let kept := String a (trimEnd rest) in
      if isWhiteSpace kept then EmptyString else kept
  end.

(** [String.prototype.trim] *)
Definition trim (s : string) : string := trimEnd (trimStart s).

(** Truthiness of a string: [!s] is [true] exactly for the empty string. *)
Definition falsy (s : string) : bool := String.eqb s EmptyString.

(** ** Timers and component state *)

(** The bodies passed to [setTimeout], one constructor per arrow function of
    the source. *)
Inductive Callback :=
| SilenceTimer
| BreathStep (opacity : Q)
| AwakeningTimer
| ReadyTimer
| VisibleTimer
| BurstTimer.

Record Timer := { handle : nat; due : N; callback : Callback }.

(** The hooks of [App] that the sequencer, the coupling effect and the
    click handler read and write, with the browser's clock and timer table.
    [fired] records each timer callback the event loop has run, with the
    time it ran at; [phaseLog] records the values [phase] has held. *)
Record Control := mkControl {
  mounted : bool;
  phase : AppPhase;
  breathOpacity : Q;
  isVisible : bool;
  inputValue : string;
  isSimulating : bool;
  targetSpeedRef : Q;
  now : N;
  timers : list Timer;
  nextHandle : nat;
  silenceTimer : option nat;
  fired : list (N * Callback);
  phaseLog : list AppPhase
}.

Definition phase_eqb (p q : AppPhase) : bool :=
  match p, q with
  | silence, silence | breath, breath | awakening, awakening | ready, ready => true
  | _, _ => false
  end.

Definition writeTarget (v : Q) (c : Control) : Control :=
  let '(mkControl m p bo vis iv sim _ n ts nh st f pl) := c in
  mkControl m p bo vis iv sim v n ts nh st f pl.

(** State setters.  React drops an update made after the component has
    unmounted, and bails out of an update that stores the value already
    held. *)
Definition setPhase (p' : AppPhase) (c : Control) : Control :=
  let '(mkControl m p bo vis iv sim tg n ts nh st f pl) := c in
  if m && negb (phase_eqb p' p)
  then mkControl m p' bo vis iv sim tg n ts nh st f (pl ++ [p'])
  else c.

Definition setBreathOpacity (o : Q) (c : Control) : Control :=
  let '(mkControl m p bo vis iv sim tg n ts nh st f pl) := c in
  if m then mkControl m p o vis iv sim tg n ts nh st f pl else c.

Definition setIsVisible (b : bool) (c : Control) : Control :=
  let '(mkControl m p bo vis iv sim tg n ts nh st f pl) := c in
  if m then mkControl m p bo b iv sim tg n ts nh st f pl else c.

Definition setIsSimulating (b : bool) (c : Control) : Control :=
  let '(mkControl m p bo vis iv sim tg n ts nh st f pl) := c in
  if m then mkControl m p bo vis iv b tg n ts nh st f pl else c.

(** Lines 191-197, the effect with dependency [inputValue].  The test
    [inputValue.length > 0] asks whether the text is empty: a text has a
    UTF-16 code unit exactly when its encoding has a byte. *)
Definition couplingEffect (c : Control) : Control :=
  if Nat.ltb 0 (String.length (inputValue c))
  then writeTarget THINKING_SPEED c
  else writeTarget IDLE_SPEED c.

(** [setInputValue v], followed by the effect it triggers when the value
    changed. *)
Definition setInputValue (v : string) (c : Control) : Control :=
  let '(mkControl m p bo vis iv sim tg n ts nh st f pl) := c in
  if m && negb (String.eqb v iv)
  then couplingEffect (mkControl m p bo vis v sim tg n ts nh st f pl)
  else c.

(** [setTimeout(cb, delay)]: the new timer is appended to the table and gets
    the next handle. *)
Definition setTimeout (cb : Callback) (delay : N) (c : Control) : Control :=
  let '(mkControl m p bo vis iv sim tg n ts nh st f pl) := c in
  mkControl m p bo vis iv sim tg n
    (ts ++ [{| handle := nh; due := (n + delay)%N; callback := cb |}])
    (S nh) st f pl.

Definition clearTimeout (h : nat) (c : Control) : Control :=
  let '(mkControl m p bo vis iv sim tg n ts nh st f pl) := c in
  mkControl m p bo vis iv sim tg n
    (filter (fun t => negb (Nat.eqb (handle t) h)) ts) nh st f pl.

(** Lines 34-40. *)
Definition breathSequence : list (N * Q) :=
  [(0%N, 0%Q); (800%N, 0.3%Q); (1600%N, 0.1%Q); (2400%N, 0.25%Q); (3200%N, 0%Q)].

Definition armBreathSequence (c : Control) : Control :=
  fold_left (fun c' step => setTimeout (BreathStep (snd step)) (fst step) c')
            breathSequence c.

(** What each timer callback does when it runs. *)
Definition runCallback (cb : Callback) (c : Control) : Control :=
  match cb with
  | SilenceTimer =>
      setTimeout VisibleTimer 9000
        (setTimeout ReadyTimer 6500
          (setTimeout AwakeningTimer 3500
            (armBreathSequence (setPhase breath c))))
  | BreathStep o => setBreathOpacity o c
  | AwakeningTimer => writeTarget IDLE_SPEED (setPhase awakening c)
  | ReadyTimer => setPhase ready c
  | VisibleTimer => setIsVisible true c
  | BurstTimer => writeTarget SUSTAINED_SPEED c
  end.

(** The pending timer the event loop runs next: the one due first, and among
    timers due together the one armed first. *)
Fixpoint earliest (l : list Timer) : option Timer :=
  match l with
  | [] => None
  | t :: rest =>
      match earliest rest with
      | Some t' => if (due t' <? due t)%N then Some t' else Some t
      | None => Some t
      end
  end.

(** The event loop runs timer [t]: the clock stands at its due time, the
    timer leaves the table, the callback runs. *)
Definition fire (t : Timer) (c : Control) : Control :=
  let '(mkControl m p bo vis iv sim tg n ts nh st f pl) := c in
  let at_ := N.max n (due t) in
  runCallback (callback t)
    (mkControl m p bo vis iv sim tg at_
       (filter (fun t' => negb (Nat.eqb (handle t') (handle t))) ts)
       nh st (f ++ [(at_, callback t)]) pl).

(** Time passes to [t] with no timer running. *)
Definition idle (t : N) (c : Control) : Control :=
  let '(mkControl m p bo vis iv sim tg n ts nh st f pl) := c in
  mkControl m p bo vis iv sim tg (N.max n t) ts nh st f pl.

(** Lines 30-61: the sequencer effect arms the outer timer and keeps its
    handle for the cleanup. *)
Definition sequencerEffect (c : Control) : Control :=
  let '(mkControl m p bo vis iv sim tg n ts nh _ f pl) :=
    setTimeout SilenceTimer 2500 c in
  mkControl m p bo vis iv sim tg n ts nh (Some (nextHandle c)) f pl.

(** Line 60: the sequencer's cleanup. *)
Definition sequencerCleanup (c : Control) : Control :=
  match silenceTimer c with
  | Some h => clearTimeout h c
  | None => c
  end.

(** The values of [useState] and [useRef] at the first render, at time 0. *)
Definition initialControl : Control :=
  {| mounted := true; phase := silence; breathOpacity := 0; isVisible := false;
     inputValue := EmptyString; isSimulating := false;
     targetSpeedRef := INITIAL_SPEED; now := 0%N; timers := []; nextHandle := 0%nat;
     silenceTimer := None; fired := []; phaseLog := [silence] |}.

(** Mounting runs the effects in source order; the renderer effect returns at
    once in phase [silence], so of the effects that touch this state the
    sequencer effect runs first and the coupling effect last. *)
Definition mountControl : Control := couplingEffect (sequencerEffect initialControl).

(** The textarea and the button are rendered in phase [ready] only. *)
Definition formRendered (c : Control) : bool := mounted c && phase_eqb (phase c) ready.

(** Line 289: [disabled={!inputValue.trim()}]. *)
Definition buttonDisabled (c : Control) : bool := falsy (trim (inputValue c)).

(** Lines 199-206. *)
Definition handleSimulationStart (c : Control) : Control :=
  setTimeout BurstTimer 3500 (writeTarget BURST_SPEED (setIsSimulating true c)).

(** [onChange] of the textarea. *)
Definition change (v : string) (c : Control) : Control :=
  if formRendered c then setInputValue v c else c.

(** [onClick] of the button; a disabled button dispatches no click. *)
Definition click (c : Control) : Control :=
  if formRendered c && negb (buttonDisabled c) then handleSimulationStart c else c.

Definition unmountControl (c : Control) : Control :=
  let '(mkControl _ p bo vis iv sim tg n ts nh st f pl) := sequencerCleanup c in
  mkControl false p bo vis iv sim tg n ts nh st f pl.

(** ** The renderer *)

(** The refs and browser objects of the renderer effect (lines 63-155):
    the star array, the eased speed, the canvas element (absent until the
    component renders it), the window size, the resize listener, the
    animation-frame request, and what has been painted so far.
    [context2d] tells whether [getContext('2d')] yields a context. *)
Record Render := mkRender {
  starsRef : list Star.t;
  speedRef : Q;
  animationFrameRef : option nat;
  canvas : option (N * N);
  innerWidth : N;
  innerHeight : N;
  context2d : bool;
  resizeListener : bool;
  frameRequest : option nat;
  nextFrame : nat;
  randomCalls : nat;
  painted : list DrawCmd;
  rendererCleanup : bool
}.

Definition canvasSize (r : Render) : N * N :=
  match canvas r with
  | Some wh => wh
  | None => (0%N, 0%N)
  end.

Definition initialRender (w h : N) (has2d : bool) : Render :=
  {| starsRef := []; speedRef := INITIAL_SPEED; animationFrameRef := None;
     canvas := None; innerWidth := w; innerHeight := h; context2d := has2d;
     resizeListener := false; frameRequest := None; nextFrame := 1%nat;
     randomCalls := 0%nat; painted := []; rendererCleanup := false |}.

(** The commit of a render: the canvas element exists exactly in the phases
    past [breath], created with the default size of a canvas. *)
Definition commitCanvas (c : Control) (r : Render) : Render :=
  let '(mkRender stars sp afr cv iw ih c2d rl fr nf rc pt cl) := r in
  mkRender stars sp afr
    match phase c with
    | silence | breath => None
    | _ => match cv with
           | Some wh => Some wh
           | None => Some (300%N, 150%N)
           end
    end iw ih c2d rl fr nf rc pt cl.

(** Lines 72-75. *)
Definition setCanvasSize (r : Render) : Render :=
  let '(mkRender stars sp afr cv iw ih c2d rl fr nf rc pt cl) := r in
  mkRender stars sp afr
    match cv with
    | Some _ => Some (iw, ih)
    | None => None
    end iw ih c2d rl fr nf rc pt cl.

Definition addResizeListener (on : bool) (r : Render) : Render :=
  let '(mkRender stars sp afr cv iw ih c2d _ fr nf rc pt cl) := r in
  mkRender stars sp afr cv iw ih c2d on fr nf rc pt cl.

(** Lines 149-154, the cleanup the renderer effect returns. *)
Definition runRendererCleanup (r : Render) : Render :=
  let '(mkRender stars sp afr cv iw ih c2d _ fr nf rc pt _) := r in
  mkRender stars sp afr cv iw ih c2d false
    match afr, fr with
    | Some id, Some id' => if Nat.eqb id id' then None else Some id'
    | _, pending => pending
    end nf rc pt false.

Section Renderer.

Variable random : nat -> Q.

(** Lines 83-89. *)
Definition initStars (r : Render) : Render :=
  let '(mkRender _ sp afr cv iw ih c2d rl fr nf rc pt cl) := r in
  mkRender (initStarsFrom random NUM_STARS rc) sp afr cv iw ih c2d rl fr nf
    (3 * NUM_STARS + rc)%nat pt cl.

(** Lines 95-145, one run of [animate]: easing, the translucent rectangle,
    the pass over the stars, and the request of the next frame. *)
Definition animate (c : Control) (r : Render) : Render :=
  let '(mkRender stars sp afr cv iw ih c2d rl fr nf rc pt cl) := r in
  let speed := ease sp (targetSpeedRef c) in
  let w := px (fst (canvasSize r)) in
  let h := px (snd (canvasSize r)) in
  let centerX := w / 2 in
  let centerY := h / 2 in
  let '(stars', cmds, k) := stepStars random speed w h centerX centerY rc stars in
  mkRender stars' speed (Some nf) cv iw ih c2d rl (Some nf) (S nf) k
    (pt ++ FillRect 0.25 w h :: cmds) cl.

Definition registerCleanup (r : Render) : Render :=
  let '(mkRender stars sp afr cv iw ih c2d rl fr nf rc pt _) := r in
  mkRender stars sp afr cv iw ih c2d rl fr nf rc pt true.

(** Lines 63-155, the effect with dependency [phase]. *)
Definition rendererEffect (c : Control) (r : Render) : Render :=
  match phase c with
  | silence | breath => r
  | _ =>
      match canvas r with
      | None => r
      | Some _ =>
          if negb (context2d r) then r
          else
            let r1 := addResizeListener true (setCanvasSize r) in
            let r2 := match starsRef r1 with
                      | [] => initStars r1
                      | _ => r1
                      end in
            registerCleanup (animate c r2)
      end
  end.

(** A render in which [phase] changed: the canvas is committed, the cleanup
    of the previous run of the renderer effect runs, then the effect. *)
Definition rerender (c : Control) (r : Render) : Render :=
  let r1 := commitCanvas c r in
  let r2 := if rendererCleanup r1 then runRendererCleanup r1 else r1 in
  rendererEffect c r2.

(** ** The whole component *)

Record App := { ctl : Control; view : Render }.

Definition mount (w h : N) (has2d : bool) : App :=
  {| ctl := mountControl; view := initialRender w h has2d |}.

(** The event loop runs a timer; when the callback changed [phase] the
    component renders again and the renderer effect follows. *)
Definition fireApp (t : Timer) (a : App) : App :=
  let c' := fire t (ctl a) in
  {| ctl := c';
     view := if phase_eqb (phase (ctl a)) (phase c') then view a
             else rerender c' (view a) |}.

(** The number of callbacks that can still run from a timer table: the
    outer sequencer timer arms eight more. *)
Definition weight (cb : Callback) : nat :=
  match cb with
  | SilenceTimer => 9
  | _ => 1
  end.

Definition budget (l : list Timer) : nat :=
  fold_right (fun t n => (weight (callback t) + n)%nat) 0%nat l.

(** The event loop up to time [target]: timers due by then run in order,
    each at its due time. *)
Fixpoint elapseLoop (fuel : nat) (target : N) (a : App) : App :=
  match fuel with
  | O => {| ctl := idle target (ctl a); view := view a |}
  | S fuel' =>
      match earliest (timers (ctl a)) with
      | Some t =>
          if (due t <=? target)%N
          then elapseLoop fuel' target (fireApp t a)
          else {| ctl := idle target (ctl a); view := view a |}
      | None => {| ctl := idle target (ctl a); view := view a |}
      end
  end.

Definition elapse (d : N) (a : App) : App :=
  elapseLoop (budget (timers (ctl a))) (now (ctl a) + d)%N a.

(** The resize event of the window. *)
Definition resize (w h : N) (r : Render) : Render :=
  let '(mkRender stars sp afr cv _ _ c2d rl fr nf rc pt cl) := r in
  let r' := mkRender stars sp afr cv w h c2d rl fr nf rc pt cl in
  if rl then setCanvasSize r' else r'.

(** The browser runs the requested animation frame, if one is pending. *)
Definition frame (c : Control) (r : Render) : Render :=
  match frameRequest r with
  | Some _ => animate c r
  | None => r
  end.

Definition unmountRender (r : Render) : Render :=
  let '(mkRender stars sp afr _ iw ih c2d rl fr nf rc pt cl) :=
    if rendererCleanup r then runRendererCleanup r else r in
  mkRender stars sp afr None iw ih c2d rl fr nf rc pt cl.

Inductive Event :=
| Elapse (d : N)
| Frame
| Resize (w h : N)
| Change (v : string)
| Click
| Unmount.

Definition step (a : App) (e : Event) : App :=
  match e with
  | Elapse d => elapse d a
  | Frame => {| ctl := ctl a; view := frame (ctl a) (view a) |}
  | Resize w h => {| ctl := ctl a; view := resize w h (view a) |}
  | Change v => {| ctl := change v (ctl a); view := view a |}
  | Click => {| ctl := click (ctl a); view := view a |}
  | Unmount =>
      if mounted (ctl a)
      then {| ctl := unmountControl (ctl a); view := unmountRender (view a) |}
      else a
  end.

Definition run (es : list Event) (a : App) : App := fold_left step es a.

End Renderer.

(** ** Notions used to state the properties *)

Close Scope string_scope.
Open Scope list_scope.
Open Scope Q_scope.






(** The event loop seen from the sequencer's side: [elapseLoop] without the
    renderer. *)
Fixpoint elapseControl (fuel : nat) (target : N) (c : Control) : Control :=
  match fuel with
  | O => idle target c
  | S fuel' =>
      match earliest (timers c) with
      | Some t =>
          if (due t <=? target)%N
          then elapseControl fuel' target (fire t c)
          else idle target c
      | None => idle target c
      end
  end.

(** The next timer runs. *)
Definition fireNext (c : Control) : Control :=
  match earliest (timers c) with
  | Some t => fire t c
  | None => c
  end.

(** The sequencer after its first [n] timers have run. *)
Definition stage (n : nat) : Control := Nat.iter n fireNext mountControl.

(** The due times of the nine sequencer timers, in the order they run. *)
Definition schedule : list N :=
  [2500; 2500; 3300; 4100; 4900; 5700; 6000; 9000; 11500]%N.

(** How many sequencer timers are due by time [t]. *)
Definition dueBy (t : N) : nat :=
  List.length (filter (fun d => (d <=? t)%N) schedule).

(** No pending timer is due by time [t]. *)
Definition settled (t : N) (c : Control) : Prop :=
  Forall (fun tm => (t < due tm)%N) (timers c).

(** The timers a callback arms when it runs at time [at_] with [h] the next
    free handle. *)
Definition armed (cb : Callback) (at_ : N) (h : nat) : list Timer :=
  match cb with
  | SilenceTimer =>
      [ {| handle := h; due := (at_ + 0)%N; callback := BreathStep 0 |};
        {| handle := 1 + h; due := (at_ + 800)%N; callback := BreathStep 0.3 |};
        {| handle := 2 + h; due := (at_ + 1600)%N; callback := BreathStep 0.1 |};
        {| handle := 3 + h; due := (at_ + 2400)%N; callback := BreathStep 0.25 |};
        {| handle := 4 + h; due := (at_ + 3200)%N; callback := BreathStep 0 |};
        {| handle := 5 + h; due := (at_ + 3500)%N; callback := AwakeningTimer |};
        {| handle := 6 + h; due := (at_ + 6500)%N; callback := ReadyTimer |};
        {| handle := 7 + h; due := (at_ + 9000)%N; callback := VisibleTimer |} ]
  | _ => []
  end.

Definition without (h : nat) (l : list Timer) : list Timer :=
  filter (fun t => negb (Nat.eqb (handle t) h)) l.

(** No pending timer is overdue. *)
Definition notOverdue (c : Control) : Prop :=
  Forall (fun tm => (now c <= due tm)%N) (timers c).

(** A timer armed by the click handler. *)
Definition isBurst (t : Timer) : Prop :=
  callback t = BurstTimer /\ (9 <= handle t)%nat.

(** [c] is a mounted component whose sequencer has run its first [n]
    timers: the sequencer's share of the state is that of [stage n], and the
    timer table holds the sequencer timers still pending followed by the
    timers of the click handler, which exist from phase [ready] on. *)
Definition Staged (n : nat) (c : Control) : Prop :=
  mounted c = true /\
  phase c = phase (stage n) /\
  breathOpacity c = breathOpacity (stage n) /\
  isVisible c = isVisible (stage n) /\
  phaseLog c = phaseLog (stage n) /\
  (now (stage n) <= now c)%N /\
  (n = 0%nat -> nextHandle c = 1%nat) /\
  (1 <= n -> 9 <= nextHandle c)%nat /\
  (n < 8 -> targetSpeedRef c = IDLE_SPEED)%nat /\
  exists bursts,
    timers c = timers (stage n) ++ bursts /\
    Forall isBurst bursts /\
    (n < 8 -> bursts = [])%nat.

(** The invariant of every state of a session. *)
Definition Sequenced (c : Control) : Prop :=
  (exists n, (n <= 9)%nat /\ phaseLog c = phaseLog (stage n) /\
             phase c = phase (stage n)) /\
  (mounted c = true -> notOverdue c /\ exists n, (n <= 9)%nat /\ Staged n c).

(** The phase a callback asks for, if any. *)
Definition phaseOf (cb : Callback) : option AppPhase :=
  match cb with
  | SilenceTimer => Some breath
  | AwakeningTimer => Some awakening
  | ReadyTimer => Some ready
  | _ => None
  end.

(** What holds of the component between two events. *)
Definition Good (a : App) : Prop :=
  Sequenced (ctl a) /\ settled (now (ctl a)) (ctl a).

(** The order of the phases. *)
Definition phaseOrder : list AppPhase := [silence; breath; awakening; ready].

Definition isPrefix {A : Type} (l full : list A) : Prop :=
  exists rest, l ++ rest = full.

(** The schedule of the sequencer as functions of the time since mount. *)
Definition phaseAt (t : N) : AppPhase :=
  if (9000 <=? t)%N then ready
  else if (6000 <=? t)%N then awakening
  else if (2500 <=? t)%N then breath
  else silence.

Definition opacityAt (t : N) : Q :=
  if (5700 <=? t)%N then 0
  else if (4900 <=? t)%N then 0.25
  else if (4100 <=? t)%N then 0.1
  else if (3300 <=? t)%N then 0.3
  else 0.

Definition visibleAt (t : N) : bool := (11500 <=? t)%N.

(** The callbacks of the sequencer with the times they run at. *)
Definition sequencerLog : list (N * Callback) :=
  [ (2500%N, SilenceTimer); (2500%N, BreathStep 0); (3300%N, BreathStep 0.3);
    (4100%N, BreathStep 0.1); (4900%N, BreathStep 0.25); (5700%N, BreathStep 0);
    (6000%N, AwakeningTimer); (9000%N, ReadyTimer); (11500%N, VisibleTimer) ].

(** The component's events seen from the sequencer's side: frames and
    resizes do not reach it. *)
Definition stepControl (c : Control) (e : Event) : Control :=
  match e with
  | Elapse d => elapseControl (budget (timers c)) (now c + d)%N c
  | Frame => c
  | Resize _ _ => c
  | Change v => change v c
  | Click => click c
  | Unmount => if mounted c then unmountControl c else c
  end.

Definition runControl (es : list Event) (c : Control) : Control :=
  fold_left stepControl es c.

(** The target speed the coupling effect stores for a text. *)
Definition couple (v : string) : Q :=
  if Nat.ltb 0 (String.length v) then THINKING_SPEED else IDLE_SPEED.

(** The target speed after each event of a run. *)
Fixpoint targetTrace (es : list Event) (c : Control) : list Q :=
  match es with
  | [] => []
  | e :: es' =>
      let c' := stepControl c e in
      targetSpeedRef c' :: targetTrace es' c'
  end.

(** Every character of the text is white space (the empty text
    included). *)
Fixpoint allWhiteSpace (s : string) : bool :=
  match s with
  | EmptyString => true
  | String a r1 =>
      if isWhiteSpace1 a then allWhiteSpace r1
      else match r1 with
           | String b r2 =>
               if isWhiteSpace2 a b then allWhiteSpace r2
               else match r2 with
                    | String c r3 =>
                        if isWhiteSpace3 a b c then allWhiteSpace r3 else false
                    | EmptyString => false
                    end
           | EmptyString => false
           end
  end.

(** The text of one U+00A0 NO-BREAK SPACE. *)
Definition noBreakSpace : string :=
  String (ascii_of_nat 194) (String (ascii_of_nat 160) EmptyString).

(** Handles are not reused: every pending timer has a handle below the
    next free one. *)
Definition freshHandles (c : Control) : Prop :=
  Forall (fun t => (handle t < nextHandle c)%nat) (timers c).

(** Events that are neither an edit, nor a click, nor the unmount. *)
Definition passive (e : Event) : Prop :=
  match e with
  | Elapse _ | Frame | Resize _ _ => True
  | _ => False
  end.

(** The timer a click in state [c] arms. *)
Definition burstTimer (c : Control) : Timer :=
  {| handle := nextHandle c; due := (now c + 3500)%N; callback := BurstTimer |}.

(** A pending timer whose callback leaves the target speed alone or stores
    the sustained value. *)
Definition targetSafe (t : Timer) : Prop :=
  callback t = VisibleTimer \/ callback t = BurstTimer.

(** After the click that armed [b]: either [b] is pending, or it has run at
    its due time and the target speed is the sustained value. *)
Definition Bursting (b : Timer) (c : Control) : Prop :=
  Forall targetSafe (timers c) /\
  notOverdue c /\
  ((In b (timers c) /\
    Forall (fun t => handle t = handle b -> t = b) (timers c) /\
    (handle b < nextHandle c)%nat)
   \/
   (targetSpeedRef c = SUSTAINED_SPEED /\
    In (due b, BurstTimer) (fired c) /\
    (due b <= now c)%N)).

(** After the click that armed [b], with no other click timer around: the
    target speed is the burst value until [b] is due. *)
Definition BurstHeld (b : Timer) (c : Control) : Prop :=
  Forall (fun t => callback t = VisibleTimer \/ t = b) (timers c) /\
  ((now c < due b)%N -> targetSpeedRef c = BURST_SPEED).

(** The depth of a star lies in the half-open interval from [MIN_Z]
    (excluded) to [MAX_Z] (included). *)
Definition depthOK (s : Star.t) : Prop := MIN_Z < Star.z s /\ Star.z s <= MAX_Z.


(** [Math.random()] returns a number from 0 (included) to 1 (excluded). *)
Definition unitRange (random : nat -> Q) : Prop :=
  forall k, 0 <= random k /\ random k < 1.


(** The rank of a phase in the order of the session. *)
Definition phaseRank (p : AppPhase) : nat :=
  match p with
  | silence => 0
  | breath => 1
  | awakening => 2
  | ready => 3
  end.

(** The renderer before the effect has got past its first test (line 64):
    nothing allocated, requested, registered or painted. *)
Definition Dormant (r : Render) : Prop :=
  canvas r = None /\ starsRef r = [] /\ painted r = [] /\
  frameRequest r = None /\ resizeListener r = false /\
  rendererCleanup r = false /\ speedRef r = INITIAL_SPEED /\
  randomCalls r = 0%nat.

(** The renderer where the canvas yields no 2D context (line 70): the canvas
    element exists with its default size and nothing else has happened. *)
Definition Blind (r : Render) : Prop :=
  canvas r = Some (300%N, 150%N) /\ starsRef r = [] /\ painted r = [] /\
  frameRequest r = None /\ resizeListener r = false /\
  rendererCleanup r = false /\ speedRef r = INITIAL_SPEED /\
  randomCalls r = 0%nat.

(** The renderer at work: the canvas has the size of the window, the resize
    listener and the cleanup are registered, the frame requested last is
    pending, and the star array has its [NUM_STARS] stars. *)
Definition Animated (r : Render) : Prop :=
  canvas r = Some (innerWidth r, innerHeight r) /\
  resizeListener r = true /\ rendererCleanup r = true /\
  (exists id, frameRequest r = Some id /\ animationFrameRef r = Some id) /\
  List.length (starsRef r) = NUM_STARS /\
  painted r <> [].

(** The renderer after its cleanup. *)
Definition Stopped (r : Render) : Prop :=
  canvas r = None /\ frameRequest r = None /\ resizeListener r = false /\
  rendererCleanup r = false /\
  (starsRef r = [] \/ List.length (starsRef r) = NUM_STARS) /\
  (context2d r = false -> starsRef r = [] /\ painted r = []).

(** The state of the renderer that goes with each state of the component. *)
Definition Rendering (a : App) : Prop :=
  match phase (ctl a) with
  | silence | breath => Dormant (view a)
  | _ =>
      if mounted (ctl a)
      then if context2d (view a) then Animated (view a) else Blind (view a)
      else Stopped (view a)
  end.

(** The lateral coordinates of a star lie from -1 (included) to 1
    (excluded), and its previous projection is stored whole or not at all. *)
Definition lateralOK (s : Star.t) : Prop :=
  (-1 <= Star.x s /\ Star.x s < 1) /\
  (-1 <= Star.y s /\ Star.y s < 1) /\
  (Star.prevX s = None <-> Star.prevY s = None).

(** The values the component ever stores in [targetSpeedRef] once mounted. *)
Definition isTarget (v : Q) : Prop :=
  v = IDLE_SPEED \/ v = THINKING_SPEED \/ v = BURST_SPEED \/ v = SUSTAINED_SPEED.

(** A canvas command with its numbers in range: the veil of a frame has
    alpha 0.25 and a size that is not negative; a trail has an alpha from 0
    to 0.6 and a width from 0 (included) to 1 (excluded); a disc has a
    radius from 0 (included) to 2 (excluded) and an alpha from 0 to 1. *)
Definition paintOK (d : DrawCmd) : Prop :=
  match d with
  | FillRect alpha w h => alpha = 0.25 /\ 0 <= w /\ 0 <= h
  | Stroke _ _ _ _ alpha lineWidth =>
      (0 <= alpha /\ alpha <= 0.6) /\ (0 <= lineWidth /\ lineWidth < 1)
  | FillArc _ _ radius alpha =>
      (0 <= radius /\ radius < 2) /\ (0 <= alpha /\ alpha <= 1)
  end.

(** Mounted, in phase [ready], with the text [v], and with the timer [b] of
    a press pending or run. *)
Definition Pressed (b : Timer) (v : string) (c : Control) : Prop :=
  Bursting b c /\ mounted c = true /\ phase c = ready /\ inputValue c = v.

(** The form has not been used: the text is empty, the simulation flag is
    down, the target speed is the idle value and no timer of the click
    handler is pending. *)
Definition Untouched (c : Control) : Prop :=
  inputValue c = EmptyString /\ isSimulating c = false /\
  targetSpeedRef c = IDLE_SPEED /\
  Forall (fun t => callback t <> BurstTimer) (timers c).

(** A star as [initStars] makes it: lateral coordinates from -1 (included)
    to 1 (excluded), depth from [MIN_Z] (included) to [MAX_Z] (excluded),
    no previous projection. *)
Definition initialOK (s : Star.t) : Prop :=
  (-1 <= Star.x s /\ Star.x s < 1) /\
  (-1 <= Star.y s /\ Star.y s < 1) /\
  (MIN_Z <= Star.z s /\ Star.z s < MAX_Z) /\
  Star.prevX s = None /\ Star.prevY s = None.

(** A relation [W] between the eased speed, the stars and the commands
    painted so far, read off a state of the renderer, and off a state of
    the component together with a target speed the component stores. *)
Definition Kept (W : Q -> list Star.t -> list DrawCmd -> Prop) (r : Render) : Prop :=
  W (speedRef r) (starsRef r) (painted r).

Definition KeptApp (W : Q -> list Star.t -> list DrawCmd -> Prop) (a : App) : Prop :=
  isTarget (targetSpeedRef (ctl a)) /\ Kept W (view a).


(** * Properties *)

(** ** Easing *)








Lemma animate_speed (random : nat -> Q) (c : Control) (r : Render) :
  speedRef (animate random c r) = ease (speedRef r) (targetSpeedRef c).
Proof.
  unfold animate. destruct r. cbn [speedRef].
  destruct (stepStars _ _ _ _ _ _ _ _) as [[stars cmds] k]. reflexivity.
Qed.




(** ** The event loop *)

Lemma ctl_fireApp random t a : ctl (fireApp random t a) = fire t (ctl a).
Proof. reflexivity. Qed.

Lemma ctl_elapseLoop random fuel target a :
  ctl (elapseLoop random fuel target a) = elapseControl fuel target (ctl a).
Proof.
  revert a. induction fuel as [|fuel IH]; intro a; [reflexivity|].
  cbn [elapseLoop elapseControl].
  destruct (earliest (timers (ctl a))) as [t|]; [|reflexivity].
  destruct (due t <=? target)%N; [|reflexivity].
  now rewrite IH.
Qed.

Lemma ctl_elapse random d a :
  ctl (elapse random d a)
  = elapseControl (budget (timers (ctl a))) (now (ctl a) + d)%N (ctl a).
Proof. apply ctl_elapseLoop. Qed.

Lemma elapseControl_fire fuel target c t :
  earliest (timers c) = Some t -> (due t <= target)%N ->
  elapseControl (S fuel) target c = elapseControl fuel target (fire t c).
Proof.
  intros He Hd. cbn [elapseControl]. rewrite He.
  apply N.leb_le in Hd. now rewrite Hd.
Qed.

Lemma elapseControl_stop fuel target c t :
  earliest (timers c) = Some t -> (target < due t)%N ->
  elapseControl fuel target c = idle target c.
Proof.
  intros He Hd. destruct fuel as [|fuel]; [reflexivity|].
  cbn [elapseControl]. rewrite He.
  apply N.leb_gt in Hd. now rewrite Hd.
Qed.

Lemma elapseControl_none fuel target c :
  earliest (timers c) = None -> elapseControl fuel target c = idle target c.
Proof.
  intro He. destruct fuel as [|fuel]; [reflexivity|].
  cbn [elapseControl]. now rewrite He.
Qed.

(** One timer of a closed state runs. *)
Ltac fire_one :=
  erewrite elapseControl_fire; [ | reflexivity | cbn; lia ];
  match goal with
  | |- elapseControl _ _ ?c = _ =>
      let c' := eval vm_compute in c in change c with c'
  end.

Ltac stop_here :=
  first [ erewrite elapseControl_stop; [ | reflexivity | cbn; lia ]
        | rewrite elapseControl_none by reflexivity ];
  f_equal; vm_compute; reflexivity.

(** From mount, at time [t] exactly the timers due by [t] have run. *)
Lemma elapse_from_mount (t : N) :
  elapseControl 9 t mountControl = idle t (stage (dueBy t)).
Proof.
  assert (H : (t < 2500 \/ 2500 <= t < 3300 \/ 3300 <= t < 4100 \/
               4100 <= t < 4900 \/ 4900 <= t < 5700 \/ 5700 <= t < 6000 \/
               6000 <= t < 9000 \/ 9000 <= t < 11500 \/ 11500 <= t)%N) by lia.
  assert (Hd : forall d, (d <=? t)%N = true <-> (d <= t)%N) by (intro; apply N.leb_le).
  assert (Hn : forall d, (d <=? t)%N = false <-> (t < d)%N) by (intro; apply N.leb_gt).
  unfold dueBy, schedule. cbn [filter].
  destruct H as [H|[H|[H|[H|[H|[H|[H|[H|H]]]]]]]];
    repeat match goal with
    | |- context [(?d <=? t)%N] =>
        first [ rewrite (proj2 (Hd d)) by lia | rewrite (proj2 (Hn d)) by lia ]
    end; cbn [List.length].
  - stop_here.
  - do 2 fire_one. stop_here.
  - do 3 fire_one. stop_here.
  - do 4 fire_one. stop_here.
  - do 5 fire_one. stop_here.
  - do 6 fire_one. stop_here.
  - do 7 fire_one. stop_here.
  - do 8 fire_one. stop_here.
  - do 9 fire_one. stop_here.
Qed.

(** ** What one timer does *)

Ltac ctl_cases :=
  repeat match goal with
  | c : Control |- _ => destruct c
  | t : Timer |- _ => destruct t
  | cb : Callback |- _ => destruct cb
  end;
  cbn;
  repeat match goal with
  | |- context [if ?b then _ else _] => destruct b; cbn
  end;
  try reflexivity.

Lemma now_fire t c : now (fire t c) = N.max (now c) (due t).
Proof. ctl_cases. Qed.

Lemma mounted_fire t c : mounted (fire t c) = mounted c.
Proof. ctl_cases. Qed.

Lemma inputValue_fire t c : inputValue (fire t c) = inputValue c.
Proof. ctl_cases. Qed.

Lemma timers_fire t c :
  timers (fire t c)
  = without (handle t) (timers c)
    ++ armed (callback t) (N.max (now c) (due t)) (nextHandle c).
Proof. ctl_cases; now rewrite ?app_nil_r, <- ?app_assoc. Qed.

Lemma nextHandle_fire t c :
  nextHandle (fire t c)
  = (List.length (armed (callback t) 0 0) + nextHandle c)%nat.
Proof. ctl_cases. Qed.

Lemma fired_fire t c :
  fired (fire t c) = fired c ++ [(N.max (now c) (due t), callback t)].
Proof. ctl_cases. Qed.

Lemma targetSpeedRef_fire t c :
  targetSpeedRef (fire t c)
  = match callback t with
    | AwakeningTimer => IDLE_SPEED
    | BurstTimer => SUSTAINED_SPEED
    | _ => targetSpeedRef c
    end.
Proof. ctl_cases. Qed.

Lemma phase_fire t c :
  phase (fire t c)
  = match phaseOf (callback t) with
    | Some p => if mounted c then p else phase c
    | None => phase c
    end.
Proof.
  destruct c as [m p]; destruct t as [h d cb]; destruct cb, m, p; reflexivity.
Qed.

Lemma phaseLog_fire t c :
  phaseLog (fire t c)
  = match phaseOf (callback t) with
    | Some p => if mounted c && negb (phase_eqb p (phase c))
                then phaseLog c ++ [p] else phaseLog c
    | None => phaseLog c
    end.
Proof.
  destruct c as [m p]; destruct t as [h d cb]; destruct cb, m, p; reflexivity.
Qed.

Lemma breathOpacity_fire t c :
  breathOpacity (fire t c)
  = match callback t with
    | BreathStep o => if mounted c then o else breathOpacity c
    | _ => breathOpacity c
    end.
Proof.
  destruct c as [m p]; destruct t as [h d cb]; destruct cb, m, p; reflexivity.
Qed.

Lemma isVisible_fire t c :
  isVisible (fire t c)
  = match callback t with
    | VisibleTimer => if mounted c then true else isVisible c
    | _ => isVisible c
    end.
Proof.
  destruct c as [m p]; destruct t as [h d cb]; destruct cb, m, p; reflexivity.
Qed.

Lemma earliest_In l t : earliest l = Some t -> In t l.
Proof.
  revert t. induction l as [|a l IH]; intros t H; [discriminate|].
  cbn [earliest] in H. destruct (earliest l) as [t'|].
  - destruct (due t' <? due a)%N; inversion H; subst.
    + right. now apply IH.
    + now left.
  - inversion H. now left.
Qed.

Lemma earliest_min l t :
  earliest l = Some t -> Forall (fun t' => (due t <= due t')%N) l.
Proof.
  revert t. induction l as [|a l IH]; intros t H; [constructor|].
  cbn [earliest] in H. destruct (earliest l) as [t'|] eqn:E.
  - specialize (IH t' eq_refl).
    destruct (due t' <? due a)%N eqn:C; inversion H; subst.
    + apply N.ltb_lt in C. constructor; [lia|assumption].
    + apply N.ltb_ge in C. constructor; [lia|].
      eapply Forall_impl; [|exact IH]. cbn. intros; lia.
  - inversion H; subst. destruct l; [|cbn in E; destruct (earliest l); [destruct (_ <? _)%N|]; discriminate].
    constructor; [lia|constructor].
Qed.

Lemma earliest_none l : earliest l = None -> l = [].
Proof.
  destruct l as [|a l]; [reflexivity|]. cbn [earliest].
  destruct (earliest l); [destruct (_ <? _)%N|]; discriminate.
Qed.

Lemma budget_cons a l : budget (a :: l) = (weight (callback a) + budget l)%nat.
Proof. reflexivity. Qed.

Lemma budget_app l l' : budget (l ++ l') = (budget l + budget l')%nat.
Proof.
  induction l as [|a l IH]; [reflexivity|].
  rewrite <- app_comm_cons, !budget_cons, IH. lia.
Qed.

Lemma without_cons h a l :
  without h (a :: l) = if Nat.eqb (handle a) h then without h l else a :: without h l.
Proof. unfold without. cbn [filter]. now destruct (Nat.eqb (handle a) h). Qed.

Lemma budget_without h l : (budget (without h l) <= budget l)%nat.
Proof.
  induction l as [|a l IH]; [cbn; lia|].
  rewrite without_cons.
  destruct (Nat.eqb (handle a) h); rewrite ?budget_cons; lia.
Qed.

Lemma budget_without_In t l :
  In t l -> (budget (without (handle t) l) + weight (callback t) <= budget l)%nat.
Proof.
  induction l as [|a l IH]; intro H; [destruct H|].
  rewrite without_cons, budget_cons.
  destruct H as [->|H].
  - rewrite Nat.eqb_refl.
    pose proof (budget_without (handle t) l). lia.
  - specialize (IH H).
    destruct (Nat.eqb (handle a) (handle t)); rewrite ?budget_cons; lia.
Qed.

Lemma budget_armed cb at_ h : (budget (armed cb at_ h) + 1 = weight cb)%nat.
Proof. destruct cb; reflexivity. Qed.

(** Running a pending timer uses up budget: the loop of [elapse] ends. *)
Lemma budget_fire t c :
  In t (timers c) -> (budget (timers (fire t c)) < budget (timers c))%nat.
Proof.
  intro H. rewrite timers_fire, budget_app.
  pose proof (budget_without_In t _ H).
  pose proof (budget_armed (callback t) (N.max (now c) (due t)) (nextHandle c)).
  lia.
Qed.

Lemma Forall_without (P : Timer -> Prop) h l : Forall P l -> Forall P (without h l).
Proof.
  intro H. unfold without. apply Forall_forall. intros t Ht.
  apply filter_In in Ht. destruct Ht as [Ht _].
  rewrite Forall_forall in H. now apply H.
Qed.

Lemma notOverdue_fire t c :
  notOverdue c -> earliest (timers c) = Some t -> notOverdue (fire t c).
Proof.
  unfold notOverdue. intros Hn He.
  pose proof (earliest_min _ _ He) as Hmin.
  pose proof (earliest_In _ _ He) as Hin.
  assert (Ht : (now c <= due t)%N) by (rewrite Forall_forall in Hn; now apply Hn).
  rewrite now_fire, timers_fire. rewrite N.max_r by assumption.
  apply Forall_app. split.
  - apply Forall_without. exact Hmin.
  - destruct (callback t); cbn; repeat constructor; cbn; lia.
Qed.

(** ** The sequencer invariant *)

Lemma without_bursts h l : (h < 9)%nat -> Forall isBurst l -> without h l = l.
Proof.
  intros Hh H. induction H as [|a l [_ Ha] _ IH]; [reflexivity|].
  rewrite without_cons. destruct (Nat.eqb_spec (handle a) h); [lia|]. now rewrite IH.
Qed.

Lemma without_app h l l' : without h (l ++ l') = without h l ++ without h l'.
Proof. unfold without. apply filter_app. Qed.

Lemma stage_phase_ready n : (n <= 9)%nat -> phase (stage n) = ready -> (8 <= n)%nat.
Proof.
  intros Hn H.
  do 8 (destruct n as [|n]; [vm_compute in H; discriminate|]). lia.
Qed.

(** A click timer runs: the sequencer's share of the state is untouched. *)
Lemma Staged_fire_burst n c t :
  (8 <= n <= 9)%nat -> Staged n c -> isBurst t -> Staged n (fire t c).
Proof.
  intros Hn (Hm & Hp & Hb & Hv & Hl & Hnow & Hh0 & Hh & Htg & bursts & Ht & HB & He) [Hcb Hh9].
  assert (Hw : without (handle t) (timers (stage n)) = timers (stage n)).
  { assert (n = 8 \/ n = 9)%nat as [->| ->] by lia; [|reflexivity].
    change (timers (stage 8)) with [{| handle := 8; due := 11500; callback := VisibleTimer |}].
    rewrite without_cons. cbn [handle].
    destruct (Nat.eqb_spec 8 (handle t)); [lia|reflexivity]. }
  unfold Staged.
  rewrite mounted_fire, now_fire, timers_fire, phase_fire, phaseLog_fire,
    breathOpacity_fire, isVisible_fire, nextHandle_fire, targetSpeedRef_fire,
    Hcb, Ht, without_app, Hw.
  cbn [phaseOf armed List.length Nat.add].
  repeat split; try assumption; try lia.
  exists (without (handle t) bursts). rewrite app_nil_r.
  split; [reflexivity|]. split; [now apply Forall_without|intro; lia].
Qed.
Lemma Staged_fire_early n c t :
  (n < 8)%nat -> Staged n c -> notOverdue c -> earliest (timers c) = Some t ->
  Staged (S n) (fire t c).
Proof.
  intros Hn (Hm & Hp & Hb & Hv & Hl & Hnow & Hh0 & Hh & Htg & bursts & Ht & HB & He) Hno Hear.
  rewrite (He Hn), app_nil_r in Ht.
  assert (Hdue : (now c <= due t)%N).
  { unfold notOverdue in Hno. rewrite Forall_forall in Hno.
    apply Hno. now apply earliest_In. }
  rewrite Ht in Hear.
  specialize (Htg Hn).
  unfold Staged.
  rewrite mounted_fire, now_fire, timers_fire, phase_fire, phaseLog_fire,
    breathOpacity_fire, isVisible_fire, nextHandle_fire, targetSpeedRef_fire,
    Hm, Hp, Hb, Hv, Hl, Htg, Ht.
  rewrite N.max_r by assumption.
  do 8 (destruct n as [|n];
    [ vm_compute in Hear; injection Hear as <-;
      cbn [due handle callback phaseOf armed List.length] in *;
      try rewrite (Hh0 eq_refl);
      repeat split; try reflexivity; try (intros; lia); try discriminate;
      exists []; split; [reflexivity | split; [constructor | reflexivity]]
    | ]).
  lia.
Qed.

Lemma Staged_fire_visible c t :
  Staged 8 c -> notOverdue c -> In t (timers (stage 8)) -> Staged 9 (fire t c).
Proof.
  intros (Hm & Hp & Hb & Hv & Hl & Hnow & Hh0 & Hh & Htg & bursts & Ht & HB & He) Hno Hin.
  destruct Hin as [<-|[]].
  assert (Hdue : (now c <= 11500)%N).
  { unfold notOverdue in Hno. rewrite Ht in Hno. now inversion Hno. }
  unfold Staged.
  rewrite mounted_fire, now_fire, timers_fire, phase_fire, phaseLog_fire,
    breathOpacity_fire, isVisible_fire, nextHandle_fire, targetSpeedRef_fire,
    Hm, Hp, Hb, Hv, Hl, Ht.
  cbn [due handle callback phaseOf armed List.length].
  rewrite N.max_r by assumption.
  repeat split; try reflexivity; try (intros; lia).
  exists bursts. split; [|split; [assumption|intro; lia]].
  rewrite app_nil_r, without_app, (without_bursts 8 bursts) by (assumption || lia).
  reflexivity.
Qed.

(** Whatever timer the event loop runs next, the sequencer moves on by at
    most one step. *)
Lemma Staged_fire n c t :
  (n <= 9)%nat -> Staged n c -> notOverdue c -> earliest (timers c) = Some t ->
  exists n', (n <= n' <= 9)%nat /\ Staged n' (fire t c).
Proof.
  intros Hn Hst Hno Hear.
  destruct (Nat.lt_ge_cases n 8) as [Hlt|Hge].
  - exists (S n). split; [lia|]. now apply Staged_fire_early.
  - pose proof (earliest_In _ _ Hear) as Hin.
    pose proof Hst as (_ & _ & _ & _ & _ & _ & _ & _ & _ & bursts & Ht & HB & _).
    rewrite Ht in Hin. apply in_app_or in Hin. destruct Hin as [Hin|Hin].
    + assert (n = 8 \/ n = 9)%nat as [->| ->] by lia; [|destruct Hin].
      exists 9%nat. split; [lia|]. now apply Staged_fire_visible.
    + exists n. split; [lia|]. apply Staged_fire_burst; [lia|assumption|].
      rewrite Forall_forall in HB. now apply HB.
Qed.

Lemma Sequenced_fire c t :
  Sequenced c -> earliest (timers c) = Some t -> Sequenced (fire t c).
Proof.
  intros [Hlog Hm] Hear. unfold Sequenced. rewrite mounted_fire.
  destruct (mounted c) eqn:Em.
  - destruct (Hm eq_refl) as (Hno & n & Hn & Hst).
    destruct (Staged_fire n c t Hn Hst Hno Hear) as (n' & Hn' & Hst').
    split.
    + exists n'. split; [lia|]. split; apply Hst'.
    + intros _. split; [now apply notOverdue_fire|]. exists n'. split; [lia|assumption].
  - split; [|discriminate].
    rewrite phaseLog_fire, phase_fire, Em. cbn [andb].
    now destruct (phaseOf (callback t)).
Qed.

(** ** The other events, field by field *)

Lemma idle_eq t c :
  idle t c
  = mkControl (mounted c) (phase c) (breathOpacity c) (isVisible c)
      (inputValue c) (isSimulating c) (targetSpeedRef c) (N.max (now c) t)
      (timers c) (nextHandle c) (silenceTimer c) (fired c) (phaseLog c).
Proof. now destruct c. Qed.

Lemma change_eq v c :
  change v c
  = if formRendered c && negb (String.eqb v (inputValue c))
    then mkControl (mounted c) (phase c) (breathOpacity c) (isVisible c) v
           (isSimulating c)
           (if Nat.ltb 0 (String.length v) then THINKING_SPEED else IDLE_SPEED)
           (now c) (timers c) (nextHandle c) (silenceTimer c) (fired c)
           (phaseLog c)
    else c.
Proof.
  destruct c as [m p bo vis iv sim tg n ts nh st f pl].
  unfold change, formRendered, setInputValue, couplingEffect. cbn.
  destruct m, (phase_eqb p ready), (String.eqb v iv); cbn; try reflexivity.
  now destruct (String.length v).
Qed.

Lemma click_eq c :
  click c
  = if formRendered c && negb (buttonDisabled c)
    then mkControl (mounted c) (phase c) (breathOpacity c) (isVisible c)
           (inputValue c) true BURST_SPEED (now c)
           (timers c ++ [{| handle := nextHandle c; due := (now c + 3500)%N;
                            callback := BurstTimer |}])
           (S (nextHandle c)) (silenceTimer c) (fired c) (phaseLog c)
    else c.
Proof.
  destruct c as [m p bo vis iv sim tg n ts nh st f pl].
  unfold click, formRendered, buttonDisabled, handleSimulationStart. cbn.
  destruct m, (phase_eqb p ready), (falsy (trim iv)); reflexivity.
Qed.

Lemma unmountControl_eq c :
  unmountControl c
  = mkControl false (phase c) (breathOpacity c) (isVisible c) (inputValue c)
      (isSimulating c) (targetSpeedRef c) (now c)
      match silenceTimer c with
      | Some h => without h (timers c)
      | None => timers c
      end
      (nextHandle c) (silenceTimer c) (fired c) (phaseLog c).
Proof.
  destruct c as [m p bo vis iv sim tg n ts nh st f pl].
  unfold unmountControl, sequencerCleanup. cbn. now destruct st.
Qed.

Lemma formRendered_true c :
  formRendered c = true -> mounted c = true /\ phase c = ready.
Proof.
  unfold formRendered. intro H. apply andb_prop in H. destruct H as [Hm Hp].
  split; [assumption|]. now destruct (phase c).
Qed.

Lemma Staged_ready n c : (n <= 9)%nat -> Staged n c -> phase c = ready -> (8 <= n)%nat.
Proof.
  intros Hn Hst Hp. apply stage_phase_ready; [assumption|].
  destruct Hst as (_ & Hp' & _). now rewrite <- Hp'.
Qed.

Lemma Sequenced_idle t c :
  Sequenced c -> (mounted c = true -> Forall (fun tm => (t <= due tm)%N) (timers c)) ->
  Sequenced (idle t c).
Proof.
  intros [Hlog Hm] Hs. rewrite idle_eq. split; [exact Hlog|].
  cbn [mounted]. intro Em. destruct (Hm Em) as (Hno & n & Hn & Hst).
  split.
  - unfold notOverdue in *. cbn [now timers]. specialize (Hs Em).
    rewrite Forall_forall in *. intros tm Htm.
    specialize (Hno tm Htm). specialize (Hs tm Htm). lia.
  - exists n. split; [assumption|].
    destruct Hst as (H1 & H2 & H3 & H4 & H5 & H6 & H7 & H8 & H9 & H10).
    unfold Staged. cbn. repeat split; try assumption. lia.
Qed.

Lemma Sequenced_change v c : Sequenced c -> Sequenced (change v c).
Proof.
  intros [Hlog Hm]. rewrite change_eq.
  destruct (formRendered c && negb (String.eqb v (inputValue c))) eqn:E;
    [|now split].
  apply andb_prop in E. destruct E as [E _].
  apply formRendered_true in E. destruct E as [Em Ep].
  split; [exact Hlog|]. intros _.
  destruct (Hm Em) as (Hno & n & Hn & Hst).
  split; [exact Hno|]. exists n. split; [assumption|].
  pose proof (Staged_ready n c Hn Hst Ep) as H8.
  destruct Hst as (H1 & H2 & H3 & H4 & H5 & H6 & H7 & H8' & H9 & H10).
  unfold Staged. cbn. repeat split; try assumption.
  - intro; lia.
Qed.

Lemma Sequenced_click c : Sequenced c -> Sequenced (click c).
Proof.
  intros [Hlog Hm]. rewrite click_eq.
  destruct (formRendered c && negb (buttonDisabled c)) eqn:E; [|now split].
  apply andb_prop in E. destruct E as [E _].
  apply formRendered_true in E. destruct E as [Em Ep].
  split; [exact Hlog|]. intros _.
  destruct (Hm Em) as (Hno & n & Hn & Hst).
  split.
  - unfold notOverdue in *. cbn [now timers]. apply Forall_app. split; [assumption|].
    repeat constructor. cbn. lia.
  - exists n. split; [assumption|].
    pose proof (Staged_ready n c Hn Hst Ep) as H8.
    destruct Hst as (H1 & H2 & H3 & H4 & H5 & H6 & H7 & H8' & H9 & bursts & Ht & HB & He).
    unfold Staged. cbn. repeat split; try assumption; try (intros; lia).
    exists (bursts ++ [{| handle := nextHandle c; due := (now c + 3500)%N;
                          callback := BurstTimer |}]).
    split; [now rewrite Ht, app_assoc|]. split; [|intro; lia].
    apply Forall_app. split; [assumption|].
    repeat constructor. cbn. apply H8'. lia.
Qed.

Lemma Sequenced_unmount c : Sequenced c -> Sequenced (unmountControl c).
Proof.
  intros [Hlog Hm]. rewrite unmountControl_eq. split; [exact Hlog|].
  cbn. discriminate.
Qed.

(** ** The event loop keeps the invariant and ends settled *)

Lemma budget_zero l : budget l = 0%nat -> l = [].
Proof.
  destruct l as [|a l]; [reflexivity|]. rewrite budget_cons.
  destruct (callback a); cbn; lia.
Qed.

Lemma now_elapseControl fuel target c :
  now (elapseControl fuel target c) = N.max (now c) target.
Proof.
  revert c. induction fuel as [|fuel IH]; intro c; cbn [elapseControl].
  - now rewrite idle_eq.
  - destruct (earliest (timers c)) as [t|]; [|now rewrite idle_eq].
    destruct (N.leb_spec (due t) target); [|now rewrite idle_eq].
    rewrite IH, now_fire. lia.
Qed.

Lemma elapseControl_settled fuel target c :
  (budget (timers c) <= fuel)%nat -> settled target (elapseControl fuel target c).
Proof.
  revert c. induction fuel as [|fuel IH]; intros c Hb; cbn [elapseControl].
  - unfold settled. rewrite idle_eq. cbn [timers].
    rewrite (budget_zero (timers c)) by lia. constructor.
  - destruct (earliest (timers c)) as [t|] eqn:He.
    + destruct (N.leb_spec (due t) target) as [Hd|Hd].
      * apply IH. pose proof (budget_fire t c (earliest_In _ _ He)). lia.
      * unfold settled. rewrite idle_eq. cbn [timers].
        eapply Forall_impl; [|exact (earliest_min _ _ He)]. cbn. intros; lia.
    + unfold settled. rewrite idle_eq. cbn [timers].
      rewrite (earliest_none _ He). constructor.
Qed.

Lemma elapseControl_Sequenced fuel target c :
  Sequenced c -> (budget (timers c) <= fuel)%nat ->
  Sequenced (elapseControl fuel target c).
Proof.
  revert c. induction fuel as [|fuel IH]; intros c Hs Hb; cbn [elapseControl].
  - apply Sequenced_idle; [assumption|]. intros _.
    rewrite (budget_zero (timers c)) by lia. constructor.
  - destruct (earliest (timers c)) as [t|] eqn:He.
    + destruct (N.leb_spec (due t) target) as [Hd|Hd].
      * apply IH; [now apply Sequenced_fire|].
        pose proof (budget_fire t c (earliest_In _ _ He)). lia.
      * apply Sequenced_idle; [assumption|]. intros _.
        eapply Forall_impl; [|exact (earliest_min _ _ He)]. cbn. intros; lia.
    + apply Sequenced_idle; [assumption|]. intros _.
      rewrite (earliest_none _ He). constructor.
Qed.

Section Runs.

Variable random : nat -> Q.

Lemma ctl_step a e : ctl (step random a e) = stepControl (ctl a) e.
Proof.
  destruct e; cbn [step stepControl]; try reflexivity.
  - apply ctl_elapse.
  - now destruct (mounted (ctl a)).
Qed.

Lemma ctl_run es a : ctl (run random es a) = runControl es (ctl a).
Proof.
  revert a. induction es as [|e es IH]; intro a; [reflexivity|].
  cbn [run runControl fold_left]. rewrite <- ctl_step. apply IH.
Qed.

Lemma Good_mount w h has2d : Good (mount w h has2d).
Proof.
  split.
  - split.
    + exists 0%nat. split; [lia|split; reflexivity].
    + intros _. split.
      * repeat constructor. cbn. lia.
      * exists 0%nat. split; [lia|].
        unfold Staged. repeat split; try reflexivity; try (intros; lia).
        exists []. repeat split. constructor.
  - repeat constructor.
Qed.

Lemma Good_step a e : Good a -> Good (step random a e).
Proof.
  intros [Hs Hq]. destruct e as [d| |w h|v| |]; cbn [step].
  - unfold Good. rewrite ctl_elapse.
    split; [now apply elapseControl_Sequenced|].
    rewrite now_elapseControl. rewrite N.max_r by lia.
    now apply elapseControl_settled.
  - split; assumption.
  - split; assumption.
  - split; cbn [ctl]; [now apply Sequenced_change|].
    rewrite change_eq. now destruct (_ && _).
  - split; cbn [ctl]; [now apply Sequenced_click|].
    rewrite click_eq. destruct (_ && _); [|assumption].
    unfold settled in *. cbn [now timers]. apply Forall_app. split; [assumption|].
    repeat constructor. cbn. lia.
  - destruct (mounted (ctl a)); [|split; assumption].
    split; cbn [ctl]; [now apply Sequenced_unmount|].
    rewrite unmountControl_eq. unfold settled in *. cbn [now timers].
    destruct (silenceTimer (ctl a)); [now apply Forall_without|assumption].
Qed.

Lemma Good_run es a : Good a -> Good (run random es a).
Proof.
  revert a. induction es as [|e es IH]; intros a H; [exact H|].
  cbn [run fold_left]. apply IH. now apply Good_step.
Qed.

End Runs.

(** ** Phases *)

(** C5.  In every run of the component from mount, whatever the user and
    the browser do and whenever the component unmounts, the values [phase]
    has held form a prefix of silence, breath, awakening, ready, without
    repetition, ending with the current phase. *)
Theorem C5_phase_never_regresses (random : nat -> Q) (w h : N) (has2d : bool)
    (es : list Event) :
  let c := ctl (run random es (mount w h has2d)) in
  isPrefix (phaseLog c) phaseOrder /\
  NoDup (phaseLog c) /\
  last (phaseLog c) silence = phase c.
Proof.
  cbn zeta.
  destruct (Good_run random es _ (Good_mount w h has2d)) as [[(n & Hn & Hl & Hp) _] _].
  rewrite Hl, Hp. clear Hl Hp.
  do 10 (destruct n as [|n];
    [ vm_compute; split;
      [ first [ now exists [breath; awakening; ready]
              | now exists [awakening; ready]
              | now exists [ready]
              | now exists [] ]
      | split; [repeat constructor; cbn; intuition discriminate | reflexivity] ]
    | ]).
  lia.
Qed.

(** ** The schedule *)

Ltac leb_decide t :=
  repeat match goal with
  | |- context [(?d <=? t)%N] =>
      first [ rewrite (proj2 (N.leb_le d t)) by lia
            | rewrite (proj2 (N.leb_gt d t)) by lia ]
  end.

Ltac stage_values H :=
  repeat match type of H with
  | context [timers (stage ?k)] =>
      let v := eval vm_compute in (timers (stage k)) in
      change (timers (stage k)) with v in H
  | context [now (stage ?k)] =>
      let v := eval vm_compute in (now (stage k)) in
      change (now (stage k)) with v in H
  end.

(** Between two events the number of sequencer timers that have run is the
    number due by now. *)
Lemma Staged_dueBy n c :
  (n <= 9)%nat -> Staged n c -> settled (now c) c -> n = dueBy (now c).
Proof.
  intros Hn (_ & _ & _ & _ & _ & Hnow & _ & _ & _ & bursts & Ht & _ & _) Hs.
  unfold settled in Hs. rewrite Ht in Hs.
  unfold dueBy, schedule. cbn [filter].
  do 10 (destruct n as [|n];
    [ stage_values Hnow; stage_values Hs;
      try (apply Forall_inv in Hs; cbn [due] in Hs);
      first [ solve [exfalso; lia] | leb_decide (now c); reflexivity ]
    | ]).
  lia.
Qed.

Lemma stage_schedule (t : N) :
  let c := stage (dueBy t) in
  phase c = phaseAt t /\ breathOpacity c = opacityAt t /\
  isVisible c = visibleAt t /\ fired c = firstn (dueBy t) sequencerLog /\
  (dueBy t <= 9)%nat.
Proof.
  assert (H : (t < 2500 \/ 2500 <= t < 3300 \/ 3300 <= t < 4100 \/
               4100 <= t < 4900 \/ 4900 <= t < 5700 \/ 5700 <= t < 6000 \/
               6000 <= t < 9000 \/ 9000 <= t < 11500 \/ 11500 <= t)%N) by lia.
  unfold dueBy, schedule, phaseAt, opacityAt, visibleAt. cbn [filter].
  destruct H as [H|[H|[H|[H|[H|[H|[H|[H|H]]]]]]]];
    leb_decide t; cbn [List.length]; vm_compute; repeat split; lia.
Qed.

Lemma stage_target (t : N) : targetSpeedRef (stage (dueBy t)) = IDLE_SPEED.
Proof.
  pose proof (stage_schedule t) as (_ & _ & _ & _ & H).
  revert H. generalize (dueBy t). intros n Hn.
  do 10 (destruct n as [|n]; [reflexivity|]). lia.
Qed.

Lemma stage_now (t : N) : (now (stage (dueBy t)) <= t)%N.
Proof.
  assert (H : (t < 2500 \/ 2500 <= t < 3300 \/ 3300 <= t < 4100 \/
               4100 <= t < 4900 \/ 4900 <= t < 5700 \/ 5700 <= t < 6000 \/
               6000 <= t < 9000 \/ 9000 <= t < 11500 \/ 11500 <= t)%N) by lia.
  unfold dueBy, schedule. cbn [filter].
  destruct H as [H|[H|[H|[H|[H|[H|[H|[H|H]]]]]]]];
    leb_decide t; cbn [List.length];
    match goal with
    | |- (now (stage ?k) <= _)%N =>
        let v := eval vm_compute in (now (stage k)) in
        change (now (stage k)) with v
    end; lia.
Qed.

Lemma run_elapse_from_mount random w h has2d t :
  ctl (run random [Elapse t] (mount w h has2d)) = idle t (stage (dueBy t)).
Proof. rewrite ctl_run. apply elapse_from_mount. Qed.

(** C8, as the code has it.  While the component is mounted, whatever else
    happens, the phase, the pulse opacity and the visibility flag are the
    functions [phaseAt], [opacityAt] and [visibleAt] of the time since
    mount: breath from 2500, the opacities 0, 0.3, 0.1, 0.25, 0 from 2500,
    3300, 4100, 4900, 5700, awakening from 6000, ready from 9000, visible
    from 11500.  With nothing but time passing, the timers that have run by
    time [t] are the first [dueBy t] entries of [sequencerLog], each at its
    listed time, the awakening callback at 6000 among them; and the target
    speed is the low ambient value at every time [t], before 6000 as well
    as after: the callback at 6000 stores a value the mount-time run of the
    coupling effect had already stored.  The store itself: in whatever
    state the awakening callback runs, whatever the target speed was, the
    target speed is the low ambient value afterwards, and the phase of a
    mounted component is [awakening]; in particular, had anything stored
    another value [v] in the target speed by 5999, the callback would
    replace it at 6000. *)
Theorem C8_sequencer_schedule (random : nat -> Q) (w h : N) (has2d : bool) :
  (forall es,
     let c := ctl (run random es (mount w h has2d)) in
     mounted c = true ->
     phase c = phaseAt (now c) /\
     breathOpacity c = opacityAt (now c) /\
     isVisible c = visibleAt (now c) /\
     ((now c < 9000)%N -> targetSpeedRef c = IDLE_SPEED)) /\
  (forall t,
     let c := ctl (run random [Elapse t] (mount w h has2d)) in
     now c = t /\ mounted c = true /\
     fired c = firstn (dueBy t) sequencerLog /\
     targetSpeedRef c = IDLE_SPEED) /\
  (forall c t,
     callback t = AwakeningTimer ->
     targetSpeedRef (fire t c) = IDLE_SPEED /\
     (mounted c = true -> phase (fire t c) = awakening)) /\
  (forall v,
     let c0 := writeTarget v (ctl (run random [Elapse 5999] (mount w h has2d))) in
     let c := stepControl c0 (Elapse 1) in
     targetSpeedRef c0 = v /\ now c = 6000%N /\
     phase c = awakening /\ targetSpeedRef c = IDLE_SPEED).
Proof.
  split; [|split; [|split]].
  - intros es c Hm. subst c.
    destruct (Good_run random es _ (Good_mount w h has2d)) as [[_ Hs] Hq].
    destruct (Hs Hm) as (_ & n & Hn & Hst).
    pose proof (Staged_dueBy n _ Hn Hst Hq) as ->.
    pose proof Hst as (_ & Hp & Hb & Hv & _ & Hnow & _ & _ & Htg & _).
    destruct (stage_schedule (now (ctl (run random es (mount w h has2d)))))
      as (Sp & Sb & Sv & _ & _).
    rewrite Hp, Hb, Hv. repeat split; try assumption.
    intro Hlt. apply Htg.
    destruct (Nat.lt_ge_cases (dueBy (now (ctl (run random es (mount w h has2d))))) 8)
      as [|Hge]; [assumption|exfalso].
    revert Hnow Hn Hge.
    generalize (dueBy (now (ctl (run random es (mount w h has2d))))). intros k Hnow Hk Hge.
    assert (k = 8 \/ k = 9)%nat as [->| ->] by lia; stage_values Hnow; lia.
  - intros t c. subst c. rewrite run_elapse_from_mount, idle_eq. cbn [now mounted fired targetSpeedRef].
    destruct (stage_schedule t) as (_ & _ & _ & Sf & Sn).
    rewrite Sf, stage_target.
    repeat split.
    + pose proof (stage_now t). lia.
    + revert Sn. generalize (dueBy t). intros k Hk.
      do 10 (destruct k as [|k]; [reflexivity|]). lia.
  - intros c t Hcb. rewrite targetSpeedRef_fire, phase_fire, Hcb. cbn [phaseOf].
    split; [reflexivity|]. now intros ->.
  - intros v c0 c. subst c c0. rewrite ctl_run. vm_compute. repeat split.
Qed.

Lemma C8_sequencer_schedule_witness :
  let c := ctl (run (fun _ => 1 # 2) [Elapse 6000] (mount 800 600 true)) in
  mounted c = true /\ phase c = awakening /\ targetSpeedRef c = IDLE_SPEED.
Proof.
  pose proof (proj1 (C8_sequencer_schedule (fun _ => 1 # 2) 800 600 true)
                [Elapse 6000]) as H.
  cbn zeta in H.
  assert (Hm : mounted (ctl (run (fun _ => 1 # 2) [Elapse 6000] (mount 800 600 true)))
               = true) by (vm_compute; reflexivity).
  assert (Hn : now (ctl (run (fun _ => 1 # 2) [Elapse 6000] (mount 800 600 true)))
               = 6000%N) by (vm_compute; reflexivity).
  destruct (H Hm) as (Hp & _ & _ & Ht).
  rewrite Hn in Hp, Ht.
  split; [exact Hm|]. split; [exact Hp|]. apply Ht. reflexivity.
Defined.

(** C8, the counterexample.  The target speed does not rise at 6000: it
    holds the low ambient value just before as well. *)
Lemma C8_target_not_raised :
  let before := targetSpeedRef
                  (ctl (run (fun _ => 1 # 2) [Elapse 5999] (mount 800 600 true))) in
  let after := targetSpeedRef
                 (ctl (run (fun _ => 1 # 2) [Elapse 6000] (mount 800 600 true))) in
  before = IDLE_SPEED /\ after = IDLE_SPEED /\ ~ before < after.
Proof.
  vm_compute. split; [reflexivity|]. split; [reflexivity|]. discriminate.
Qed.

(** ** Teardown *)

(** When the teardown clears everything: only before the outer timer has
    run, or after the last inner timer has. *)
Lemma teardown_pending random w h has2d (t : N) :
  let c := ctl (run random [Elapse t; Unmount] (mount w h has2d)) in
  ((t < 2500)%N -> timers c = []) /\
  ((2500 <= t < 11500)%N -> timers c <> []) /\
  ((11500 <= t)%N -> timers c = []).
Proof.
  cbn zeta. rewrite ctl_run. cbn [runControl fold_left stepControl].
  change (ctl (mount w h has2d)) with mountControl.
  change (now mountControl + t)%N with t.
  change (budget (timers mountControl)) with 9%nat.
  rewrite elapse_from_mount, idle_eq.
  assert (Hm : mounted (stage (dueBy t)) = true).
  { destruct (stage_schedule t) as (_ & _ & _ & _ & Hn). revert Hn.
    generalize (dueBy t). intros k Hk.
    do 10 (destruct k as [|k]; [reflexivity|]). lia. }
  cbn [mounted]. rewrite Hm, unmountControl_eq. cbn [timers silenceTimer].
  assert (H : (t < 2500 \/ 2500 <= t < 3300 \/ 3300 <= t < 4100 \/
               4100 <= t < 4900 \/ 4900 <= t < 5700 \/ 5700 <= t < 6000 \/
               6000 <= t < 9000 \/ 9000 <= t < 11500 \/ 11500 <= t)%N) by lia.
  unfold dueBy, schedule. cbn [filter].
  destruct H as [H|[H|[H|[H|[H|[H|[H|[H|H]]]]]]]];
    leb_decide t; cbn [List.length];
    match goal with
    | |- context [silenceTimer (stage ?k)] =>
        let v := eval vm_compute in (silenceTimer (stage k)) in
        change (silenceTimer (stage k)) with v;
        let l := eval vm_compute in (without 0 (timers (stage k))) in
        change (without 0 (timers (stage k))) with l
    end;
    (split; [|split]); intros; try lia; try reflexivity; discriminate.
Qed.

(** C3, evaluated.  The cleanup of the sequencer effect clears the outer
    timer only.  Unmounting at 2000, before it has run, leaves no timer
    pending; unmounting at 3000, after it has run, leaves the seven timers it
    armed pending, and they all run after the teardown, the awakening
    callback at 6000 among them. *)
Theorem C3_teardown_leaves_inner_timers (random : nat -> Q) (w h : N) (has2d : bool) :
  timers (ctl (run random [Elapse 2000; Unmount] (mount w h has2d))) = [] /\
  (let c := ctl (run random [Elapse 3000; Unmount] (mount w h has2d)) in
   mounted c = false /\
   map callback (timers c)
   = [BreathStep 0.3; BreathStep 0.1; BreathStep 0.25; BreathStep 0;
      AwakeningTimer; ReadyTimer; VisibleTimer]) /\
  (let c := ctl (run random [Elapse 3000; Unmount; Elapse 9000] (mount w h has2d)) in
   mounted c = false /\
   fired c = sequencerLog /\
   In (6000%N, AwakeningTimer) (fired c)).
Proof.
  rewrite !ctl_run. vm_compute.
  repeat split; try reflexivity.
  do 6 right. left. reflexivity.
Qed.

(** ** The burst timer outlives the text *)

(** C10.  The button is pressed at 9000 with the text [a]; the text is
    cleared 1000 ms later, which sets the target speed to the idle value;
    the burst timer still runs 3500 ms after the press and leaves the
    sustained value as the target speed of an empty text. *)
Theorem C10_burst_timer_overrides_cleared_text (random : nat -> Q) (w h : N)
    (has2d : bool) :
  let pressed := [Elapse 9000; Change "a"%string; Click] in
  let cleared := pressed ++ [Elapse 1000; Change EmptyString] in
  let c1 := ctl (run random pressed (mount w h has2d)) in
  let c2 := ctl (run random (cleared ++ [Elapse 2499]) (mount w h has2d)) in
  let c3 := ctl (run random (cleared ++ [Elapse 2500]) (mount w h has2d)) in
  (now c1 = 9000%N /\ targetSpeedRef c1 = BURST_SPEED) /\
  (now c2 = 12499%N /\ inputValue c2 = EmptyString /\ targetSpeedRef c2 = IDLE_SPEED) /\
  (now c3 = 12500%N /\ inputValue c3 = EmptyString /\
   targetSpeedRef c3 = SUSTAINED_SPEED /\
   ~ targetSpeedRef c3 == IDLE_SPEED /\
   fired c3 = sequencerLog ++ [(12500%N, BurstTimer)]).
Proof.
  cbn zeta. rewrite !ctl_run. vm_compute.
  repeat split; try reflexivity. discriminate.
Qed.

(** ** The text and the target speed *)

Lemma trimStart_eq s :
  trimStart s = match whiteSpaceHead s with Some r => trimStart r | None => s end.
Proof.
  destruct s as [|a [|b [|c r3]]]; cbn; try reflexivity.
  - now destruct (isWhiteSpace1 a).
  - destruct (isWhiteSpace1 a); [reflexivity|]. now destruct (isWhiteSpace2 a b).
  - destruct (isWhiteSpace1 a); [reflexivity|]. destruct (isWhiteSpace2 a b); [reflexivity|].
    now destruct (isWhiteSpace3 a b c).
Qed.

Lemma allWhiteSpace_eq s :
  allWhiteSpace s
  = match s with
    | EmptyString => true
    | _ => match whiteSpaceHead s with Some r => allWhiteSpace r | None => false end
    end.
Proof.
  destruct s as [|a [|b [|c r3]]]; cbn; try reflexivity.
  - now destruct (isWhiteSpace1 a).
  - destruct (isWhiteSpace1 a); [reflexivity|]. now destruct (isWhiteSpace2 a b).
  - destruct (isWhiteSpace1 a); [reflexivity|]. destruct (isWhiteSpace2 a b); [reflexivity|].
    now destruct (isWhiteSpace3 a b c).
Qed.

Lemma whiteSpaceHead_shorter s r :
  whiteSpaceHead s = Some r -> (String.length r < String.length s)%nat.
Proof.
  destruct s as [|a [|b [|c r3]]]; cbn; try discriminate.
  - destruct (isWhiteSpace1 a); [|discriminate]. intros [= <-]. cbn. lia.
  - destruct (isWhiteSpace1 a); [intros [= <-]; cbn; lia|].
    destruct (isWhiteSpace2 a b); [|discriminate]. intros [= <-]. cbn. lia.
  - destruct (isWhiteSpace1 a); [intros [= <-]; cbn; lia|].
    destruct (isWhiteSpace2 a b); [intros [= <-]; cbn; lia|].
    destruct (isWhiteSpace3 a b c); [|discriminate]. intros [= <-]. cbn. lia.
Qed.

Lemma by_length (P : string -> Prop) :
  (forall s, (forall r, (String.length r < String.length s)%nat -> P r) -> P s) ->
  forall s, P s.
Proof.
  intros H s. remember (String.length s) as n eqn:E.
  revert s E. induction n as [n IH] using lt_wf_ind. intros s ->.
  apply H. intros r Hr. now apply (IH (String.length r)).
Qed.

Lemma trimStart_allWhiteSpace v : allWhiteSpace v = true -> trimStart v = EmptyString.
Proof.
  induction v as [v IH] using by_length. rewrite allWhiteSpace_eq, trimStart_eq.
  destruct v as [|a v']; [reflexivity|].
  destruct (whiteSpaceHead (String a v')) as [r|] eqn:E; [|discriminate].
  apply IH. now apply whiteSpaceHead_shorter.
Qed.

Lemma trim_allWhiteSpace v : allWhiteSpace v = true -> trim v = EmptyString.
Proof. intro H. unfold trim. now rewrite trimStart_allWhiteSpace. Qed.

Lemma allWhiteSpace_trimStart s :
  allWhiteSpace (trimStart s) = true -> allWhiteSpace s = true.
Proof.
  induction s as [s IH] using by_length. rewrite trimStart_eq, (allWhiteSpace_eq s).
  destruct s as [|a s']; [reflexivity|].
  destruct (whiteSpaceHead (String a s')) as [r|] eqn:E.
  - apply IH. now apply whiteSpaceHead_shorter.
  - rewrite allWhiteSpace_eq, E. easy.
Qed.

Lemma isWhiteSpace2_not1 a b : isWhiteSpace2 a b = true -> isWhiteSpace1 a = false.
Proof.
  unfold isWhiteSpace2, isWhiteSpace1. intro H. apply andb_true_iff in H.
  destruct H as [H _]. apply Nat.eqb_eq in H. rewrite H. reflexivity.
Qed.

Lemma isWhiteSpace3_lead a b c :
  isWhiteSpace3 a b c = true ->
  (code a = 225 \/ code a = 226 \/ code a = 227 \/ code a = 239)%nat.
Proof.
  unfold isWhiteSpace3. intro H.
  repeat (apply orb_true_iff in H; destruct H as [H|H]);
    repeat (apply andb_true_iff in H; destruct H as [H ?]);
    apply Nat.eqb_eq in H; auto.
Qed.

Lemma isWhiteSpace3_not12 a b c :
  isWhiteSpace3 a b c = true -> isWhiteSpace1 a = false /\ isWhiteSpace2 a b = false.
Proof.
  intro H. apply isWhiteSpace3_lead in H. unfold isWhiteSpace1, isWhiteSpace2.
  destruct H as [-> | [-> | [-> | ->]]]; split; reflexivity.
Qed.

Lemma trimEnd_cons r b t :
  trimEnd r = String b t -> exists r2, r = String b r2 /\ trimEnd r2 = t.
Proof.
  destruct r as [|x r2]; [discriminate|]. cbn [trimEnd].
  destruct (isWhiteSpace (String x (trimEnd r2))); [discriminate|].
  intros [= -> <-]. now exists r2.
Qed.

Lemma trimEnd_empty s : trimEnd s = EmptyString -> allWhiteSpace s = true.
Proof.
  induction s as [s IH] using by_length. destruct s as [|a rest]; [reflexivity|].
  cbn [trimEnd]. destruct (isWhiteSpace (String a (trimEnd rest))) eqn:E; [|discriminate].
  intros _. cbn [isWhiteSpace] in E.
  destruct (trimEnd rest) as [|b [|c [|d t]]] eqn:Er.
  - cbn [allWhiteSpace]. rewrite E. apply IH; [cbn; lia|assumption].
  - destruct (trimEnd_cons _ _ _ Er) as (r2 & -> & E2).
    cbn [allWhiteSpace]. rewrite (isWhiteSpace2_not1 _ _ E), E.
    apply IH; [cbn; lia|assumption].
  - destruct (trimEnd_cons _ _ _ Er) as (r2 & -> & E2).
    destruct (trimEnd_cons _ _ _ E2) as (r3 & -> & E3).
    destruct (isWhiteSpace3_not12 _ _ _ E) as [N1 N2].
    cbn [allWhiteSpace]. rewrite N1, N2, E.
    apply IH; [cbn; lia|assumption].
  - discriminate.
Qed.

Lemma trim_empty s : trim s = EmptyString -> allWhiteSpace s = true.
Proof. intro H. now apply allWhiteSpace_trimStart, trimEnd_empty. Qed.

Lemma couple_nonempty v : v <> EmptyString -> couple v = THINKING_SPEED.
Proof. destruct v; [congruence|reflexivity]. Qed.

Lemma change_changed v c :
  formRendered c = true -> v <> inputValue c ->
  inputValue (change v c) = v /\
  targetSpeedRef (change v c) = couple v /\
  formRendered (change v c) = true.
Proof.
  intros Hf Hv. rewrite change_eq, Hf.
  destruct (String.eqb_spec v (inputValue c)); [contradiction|].
  cbn. repeat split. exact Hf.
Qed.

(** After an edit of the rendered form, the target speed is the coupled
    one as soon as it was before. *)
Lemma change_coupled v c :
  formRendered c = true -> targetSpeedRef c = couple (inputValue c) ->
  inputValue (change v c) = v /\
  targetSpeedRef (change v c) = couple v /\
  formRendered (change v c) = true.
Proof.
  intros Hf Hc. destruct (String.eqb_spec v (inputValue c)) as [->|Hne].
  - rewrite change_eq, Hf, String.eqb_refl. cbn. repeat split; assumption.
  - now apply change_changed.
Qed.

Lemma targetTrace_edits vs c :
  formRendered c = true -> targetSpeedRef c = couple (inputValue c) ->
  targetTrace (map Change vs) c = map couple vs.
Proof.
  revert c. induction vs as [|v vs IH]; intros c Hf Hc; [reflexivity|].
  cbn [map targetTrace stepControl].
  destruct (change_coupled v c Hf Hc) as (Hi & Ht & Hf').
  rewrite Ht. f_equal. apply IH; [assumption|]. now rewrite Hi.
Qed.

(** C6.  In the rendered form with an empty text and the idle target speed,
    edits through non-empty texts and then back to the empty text give the
    thinking value after each non-empty edit and the idle value after the
    last, and nothing else; the thinking value is above the idle one. *)
Theorem C6_empty_nonempty_empty (random : nat -> Q) (a : App) (vs : list string) :
  formRendered (ctl a) = true ->
  inputValue (ctl a) = EmptyString ->
  targetSpeedRef (ctl a) = IDLE_SPEED ->
  Forall (fun v => v <> EmptyString) vs ->
  targetTrace (map Change (vs ++ [EmptyString])) (ctl a)
  = repeat THINKING_SPEED (List.length vs) ++ [IDLE_SPEED] /\
  targetSpeedRef (ctl (run random (map Change (vs ++ [EmptyString])) a))
  = targetSpeedRef (ctl a) /\
  IDLE_SPEED < THINKING_SPEED.
Proof.
  intros Hf Hi Ht Hvs.
  assert (Hc : targetSpeedRef (ctl a) = couple (inputValue (ctl a)))
    by (now rewrite Hi, Ht).
  assert (Htr : targetTrace (map Change (vs ++ [EmptyString])) (ctl a)
                = repeat THINKING_SPEED (List.length vs) ++ [IDLE_SPEED]).
  { rewrite targetTrace_edits by assumption.
    rewrite map_app. cbn [map]. f_equal.
    induction Hvs as [|v vs Hv _ IH]; [reflexivity|].
    cbn [map List.length repeat]. now rewrite couple_nonempty, IH. }
  split; [exact Htr|]. split; [|reflexivity].
  rewrite ctl_run, Ht. clear Htr Hvs Hi Ht.
  revert Hf Hc. generalize (ctl a). induction vs as [|v vs IH]; intros c Hf Hc.
  - cbn. now destruct (change_coupled EmptyString c Hf Hc) as (_ & -> & _).
  - cbn [app map runControl fold_left stepControl].
    destruct (change_coupled v c Hf Hc) as (Hi' & Ht' & Hf').
    apply IH; [assumption|]. now rewrite Hi'.
Qed.

Lemma C6_empty_nonempty_empty_witness :
  let a := run (fun _ => 1 # 2) [Elapse 9000] (mount 800 600 true) in
  targetTrace (map Change (["a"%string; "ab"%string] ++ [EmptyString])) (ctl a)
  = [THINKING_SPEED; THINKING_SPEED; IDLE_SPEED].
Proof.
  apply (C6_empty_nonempty_empty (fun _ => 1 # 2)
           (run (fun _ => 1 # 2) [Elapse 9000] (mount 800 600 true))
           ["a"%string; "ab"%string]).
  - vm_compute; reflexivity.
  - vm_compute; reflexivity.
  - vm_compute; reflexivity.
  - repeat constructor; discriminate.
Defined.

(** C4, the counterexample.  A text of one space leaves the button disabled
    and yet sets the thinking value, not the idle one. *)
Lemma C4_whitespace_sets_thinking :
  let c := ctl (run (fun _ => 1 # 2) [Elapse 9000; Change " "%string]
                    (mount 800 600 true)) in
  inputValue c = " "%string /\
  buttonDisabled c = true /\
  targetSpeedRef c = THINKING_SPEED /\
  ~ targetSpeedRef c == IDLE_SPEED.
Proof. vm_compute. repeat split. discriminate. Qed.

(** C4, as the code has it.  An edit of the rendered form to a text [v]
    leaves the button disabled exactly when the trimmed [v] is empty, that
    is, exactly when every character of [v] is white space as
    [String.prototype.trim] has it (TAB, LF, VT, FF, CR, SPACE, U+00A0,
    U+1680, U+2000 to U+200A, U+2028, U+2029, U+202F, U+205F, U+3000,
    U+FEFF); and it sets the target speed by the untrimmed length of [v]:
    the thinking value for every non-empty [v], a whitespace-only one
    included, and the idle value for the empty text alone. *)
Theorem C4_trigger_trimmed_coupling_untrimmed (random : nat -> Q) (a : App)
    (v : string) :
  formRendered (ctl a) = true ->
  v <> inputValue (ctl a) ->
  let c := ctl (step random a (Change v)) in
  buttonDisabled c = falsy (trim v) /\
  targetSpeedRef c = (if Nat.ltb 0 (String.length v) then THINKING_SPEED else IDLE_SPEED) /\
  (v <> EmptyString -> targetSpeedRef c = THINKING_SPEED) /\
  (v = EmptyString -> buttonDisabled c = true /\ targetSpeedRef c = IDLE_SPEED) /\
  (buttonDisabled c = true <-> allWhiteSpace v = true).
Proof.
  intros Hf Hv c. subst c. rewrite ctl_step. cbn [stepControl].
  destruct (change_changed v (ctl a) Hf Hv) as (Hi & Ht & _).
  unfold buttonDisabled. rewrite Hi, Ht.
  split; [reflexivity|]. split; [reflexivity|]. split; [apply couple_nonempty|].
  split.
  - intros ->. split; reflexivity.
  - unfold falsy. split.
    + intro H. apply trim_empty. now apply String.eqb_eq.
    + intro Hw. now rewrite trim_allWhiteSpace.
Qed.

Lemma C4_trigger_trimmed_coupling_untrimmed_witness :
  let c := ctl (step (fun _ => 1 # 2)
                  (run (fun _ => 1 # 2) [Elapse 9000] (mount 800 600 true))
                  (Change noBreakSpace)) in
  buttonDisabled c = true /\ targetSpeedRef c = THINKING_SPEED.
Proof.
  destruct (C4_trigger_trimmed_coupling_untrimmed (fun _ => 1 # 2)
              (run (fun _ => 1 # 2) [Elapse 9000] (mount 800 600 true))
              noBreakSpace) as (_ & _ & Ht & _ & Hd).
  - vm_compute; reflexivity.
  - vm_compute; discriminate.
  - split; [apply Hd; reflexivity|apply Ht; discriminate].
Defined.

(** ** The click and its timer *)

(** An invariant of single timers and of idle waits is an invariant of the
    event loop. *)
Lemma elapseControl_invariant (P : Control -> Prop) :
  (forall c t, P c -> earliest (timers c) = Some t -> P (fire t c)) ->
  (forall c t, P c -> Forall (fun tm => (t < due tm)%N) (timers c) -> P (idle t c)) ->
  forall fuel target c,
    P c -> (budget (timers c) <= fuel)%nat -> P (elapseControl fuel target c).
Proof.
  intros Hfire Hidle fuel target.
  induction fuel as [|fuel IH]; intros c Hp Hb; cbn [elapseControl].
  - apply Hidle; [assumption|].
    rewrite (budget_zero (timers c)) by lia. constructor.
  - destruct (earliest (timers c)) as [t|] eqn:He.
    + destruct (N.leb_spec (due t) target) as [Hd|Hd].
      * apply IH; [now apply Hfire|].
        pose proof (budget_fire t c (earliest_In _ _ He)). lia.
      * apply Hidle; [assumption|].
        eapply Forall_impl; [|exact (earliest_min _ _ He)]. cbn. intros; lia.
    + apply Hidle; [assumption|]. rewrite (earliest_none _ He). constructor.
Qed.

Lemma In_without t h l : In t (without h l) <-> In t l /\ handle t <> h.
Proof.
  unfold without. rewrite filter_In. split; intros [H1 H2]; split; try assumption.
  - intro E. rewrite E, Nat.eqb_refl in H2. discriminate.
  - now apply negb_true_iff, Nat.eqb_neq.
Qed.

Lemma armed_safe t at_ h : targetSafe t -> armed (callback t) at_ h = [].
Proof. now intros [->| ->]. Qed.

Lemma freshHandles_fire t c : freshHandles c -> freshHandles (fire t c).
Proof.
  unfold freshHandles. intro H. rewrite timers_fire, nextHandle_fire.
  apply Forall_app. split.
  - apply Forall_without. eapply Forall_impl; [|exact H]. cbn. intros; lia.
  - destruct (callback t); cbn [armed List.length];
      repeat (apply Forall_cons; [cbn [handle]; lia|]); apply Forall_nil.
Qed.

Lemma freshHandles_step c e : freshHandles c -> freshHandles (stepControl c e).
Proof.
  intro H. destruct e as [d| |w h|v| |]; cbn [stepControl]; try assumption.
  - apply elapseControl_invariant;
      [ intros; now apply freshHandles_fire
      | intros c' t Hc _; now rewrite idle_eq
      | assumption
      | lia ].
  - rewrite change_eq. now destruct (_ && _).
  - rewrite click_eq. destruct (_ && _); [|assumption].
    unfold freshHandles in *. cbn [timers nextHandle]. apply Forall_app. split.
    + eapply Forall_impl; [|exact H]. cbn. intros; lia.
    + apply Forall_cons; [cbn [handle]; lia|apply Forall_nil].
  - destruct (mounted c); [|assumption]. rewrite unmountControl_eq.
    unfold freshHandles in *. cbn [timers nextHandle].
    destruct (silenceTimer c); [now apply Forall_without|assumption].
Qed.

Lemma freshHandles_run es c : freshHandles c -> freshHandles (runControl es c).
Proof.
  revert c. induction es as [|e es IH]; intros c H; [exact H|].
  cbn [runControl fold_left]. apply IH. now apply freshHandles_step.
Qed.

Lemma Bursting_fire b c t :
  callback b = BurstTimer ->
  Bursting b c -> earliest (timers c) = Some t -> Bursting b (fire t c).
Proof.
  intros Hb (Hsafe & Hno & Hcase) Hear.
  pose proof (earliest_In _ _ Hear) as Hin.
  assert (Ht : targetSafe t) by (rewrite Forall_forall in Hsafe; now apply Hsafe).
  assert (Hdue : (now c <= due t)%N)
    by (unfold notOverdue in Hno; rewrite Forall_forall in Hno; now apply Hno).
  unfold Bursting.
  rewrite timers_fire, (armed_safe t _ _ Ht), app_nil_r, targetSpeedRef_fire,
    fired_fire, now_fire, nextHandle_fire, (armed_safe t _ _ Ht).
  rewrite N.max_r by assumption.
  split; [now apply Forall_without|].
  split.
  { now apply notOverdue_fire. }
  destruct Hcase as [(Hinb & Huniq & Hnh)|(Htg & Hf & Hd)].
  - destruct (Nat.eq_dec (handle t) (handle b)) as [E|E].
    + right. assert (t = b) as -> by (rewrite Forall_forall in Huniq; now apply Huniq).
      rewrite Hb. split; [reflexivity|]. split; [|lia].
      apply in_or_app. right. now left.
    + left. split; [apply In_without; split; [assumption|congruence]|].
      split; [now apply Forall_without|]. cbn. lia.
  - right. split; [destruct Ht as [->| ->]; [assumption|reflexivity]|].
    split; [apply in_or_app; now left|lia].
Qed.

Lemma Bursting_idle b c t :
  Bursting b c -> Forall (fun tm => (t < due tm)%N) (timers c) -> Bursting b (idle t c).
Proof.
  intros (Hsafe & Hno & Hcase) Hs. rewrite idle_eq. unfold Bursting, notOverdue in *.
  cbn [timers now targetSpeedRef fired nextHandle].
  split; [assumption|]. split.
  - rewrite Forall_forall in *. intros tm Htm.
    specialize (Hno tm Htm). specialize (Hs tm Htm). lia.
  - destruct Hcase as [H|(H1 & H2 & H3)]; [now left|right].
    repeat split; try assumption. lia.
Qed.

Lemma BurstHeld_fire b c t :
  callback b = BurstTimer ->
  BurstHeld b c -> earliest (timers c) = Some t -> BurstHeld b (fire t c).
Proof.
  intros Hb [Hq Hheld] Hear.
  pose proof (earliest_In _ _ Hear) as Hin.
  assert (Ht : callback t = VisibleTimer \/ t = b)
    by (rewrite Forall_forall in Hq; now apply Hq).
  assert (Hsafe : targetSafe t) by (destruct Ht as [H| ->]; [now left|now right]).
  unfold BurstHeld.
  rewrite timers_fire, (armed_safe t _ _ Hsafe), app_nil_r, targetSpeedRef_fire, now_fire.
  split; [now apply Forall_without|].
  intro Hlt. destruct Ht as [->| ->]; [apply Hheld; lia|lia].
Qed.

Lemma BurstHeld_idle b c t : BurstHeld b c -> BurstHeld b (idle t c).
Proof.
  intros [Hq Hheld]. rewrite idle_eq. unfold BurstHeld. cbn [timers now targetSpeedRef].
  split; [assumption|]. intro. apply Hheld. lia.
Qed.

Lemma passive_step (P : Control -> Prop) c e :
  (forall c t, P c -> earliest (timers c) = Some t -> P (fire t c)) ->
  (forall c t, P c -> Forall (fun tm => (t < due tm)%N) (timers c) -> P (idle t c)) ->
  passive e -> P c -> P (stepControl c e).
Proof.
  intros Hfire Hidle He Hp. destruct e; try destruct He; cbn [stepControl]; try assumption.
  apply elapseControl_invariant; [assumption|assumption|assumption|lia].
Qed.

Lemma passive_run (P : Control -> Prop) es c :
  (forall c t, P c -> earliest (timers c) = Some t -> P (fire t c)) ->
  (forall c t, P c -> Forall (fun tm => (t < due tm)%N) (timers c) -> P (idle t c)) ->
  Forall passive es -> P c -> P (runControl es c).
Proof.
  intros Hfire Hidle Hes. revert c.
  induction Hes as [|e es He _ IH]; intros c Hp; [exact Hp|].
  cbn [runControl fold_left]. apply IH. now apply passive_step.
Qed.

Lemma stage_timers_safe n :
  (8 <= n <= 9)%nat -> Forall targetSafe (timers (stage n)).
Proof.
  intro Hn. assert (n = 8 \/ n = 9)%nat as [->| ->] by lia.
  - apply Forall_cons; [now left|apply Forall_nil].
  - apply Forall_nil.
Qed.

(** In the rendered form the pending timers are the visibility timer and
    click timers. *)
Lemma ready_timers_safe c :
  Sequenced c -> formRendered c = true -> Forall targetSafe (timers c) /\ notOverdue c.
Proof.
  intros [_ Hs] Hf. apply formRendered_true in Hf. destruct Hf as [Hm Hp].
  destruct (Hs Hm) as (Hno & n & Hn & Hst).
  split; [|assumption].
  pose proof (Staged_ready n c Hn Hst Hp) as H8.
  destruct Hst as (_ & _ & _ & _ & _ & _ & _ & _ & _ & bursts & -> & HB & _).
  apply Forall_app. split; [apply stage_timers_safe; lia|].
  eapply Forall_impl; [|exact HB]. intros t [Ht _]. now right.
Qed.

Section Click.

Variable random : nat -> Q.

(** C7.  In any state the component reaches in which the button is enabled,
    a click stores the burst value at once.  Through any later frames,
    resizes and waits, at whatever rate the frames come: once 3500 ms have
    passed since the click, the timer armed by the click has run at exactly
    3500 ms after the click and the target speed is the sustained value;
    before that, if no timer of an earlier click was pending, the target
    speed is still the burst value.  The sustained value lies above the
    idle and the thinking values. *)
Theorem C7_burst_then_sustained (w h : N) (has2d : bool) (es0 es : list Event) :
  let a := run random es0 (mount w h has2d) in
  let a1 := step random a Click in
  let a2 := run random es a1 in
  let dueTime := (now (ctl a) + 3500)%N in
  formRendered (ctl a) = true ->
  buttonDisabled (ctl a) = false ->
  Forall passive es ->
  targetSpeedRef (ctl a1) = BURST_SPEED /\
  now (ctl a1) = now (ctl a) /\
  ((dueTime <= now (ctl a2))%N ->
     targetSpeedRef (ctl a2) = SUSTAINED_SPEED /\
     In (dueTime, BurstTimer) (fired (ctl a2))) /\
  ((now (ctl a2) < dueTime)%N ->
     Forall (fun t => callback t <> BurstTimer) (timers (ctl a)) ->
     targetSpeedRef (ctl a2) = BURST_SPEED) /\
  IDLE_SPEED < SUSTAINED_SPEED /\ THINKING_SPEED < SUSTAINED_SPEED.
Proof.
  intros a a1 a2 dueTime Hf Hd Hes.
  assert (Ga : Good a) by (apply Good_run, Good_mount).
  assert (Ga2 : Good a2) by (apply Good_run, Good_step, Ga).
  assert (Fa : freshHandles (ctl a)).
  { unfold a. rewrite ctl_run. apply freshHandles_run.
    apply Forall_cons; [cbn; lia|apply Forall_nil]. }
  destruct (ready_timers_safe (ctl a) (proj1 Ga) Hf) as [Hsafe Hno].
  set (b := burstTimer (ctl a)).
  assert (E1 : ctl a1
          = mkControl (mounted (ctl a)) (phase (ctl a)) (breathOpacity (ctl a))
              (isVisible (ctl a)) (inputValue (ctl a)) true BURST_SPEED
              (now (ctl a)) (timers (ctl a) ++ [b]) (S (nextHandle (ctl a)))
              (silenceTimer (ctl a)) (fired (ctl a)) (phaseLog (ctl a))).
  { unfold a1. rewrite ctl_step. cbn [stepControl]. now rewrite click_eq, Hf, Hd. }
  assert (E2 : ctl a2 = runControl es (ctl a1)) by apply ctl_run.
  assert (Hb : callback b = BurstTimer) by reflexivity.
  assert (B1 : Bursting b (ctl a1)).
  { rewrite E1. unfold Bursting, notOverdue. cbn [timers now nextHandle].
    split; [apply Forall_app; split; [assumption|]|].
    { apply Forall_cons; [now right|apply Forall_nil]. }
    split; [apply Forall_app; split; [assumption|]|].
    { apply Forall_cons; [cbn; lia|apply Forall_nil]. }
    left. split; [apply in_or_app; right; now left|].
    split; [|cbn; lia].
    apply Forall_app. split.
    - eapply Forall_impl; [|exact Fa]. cbn. intros; lia.
    - apply Forall_cons; [reflexivity|apply Forall_nil]. }
  assert (B2 : Bursting b (ctl a2)).
  { rewrite E2. apply passive_run; try assumption.
    - intros; now apply Bursting_fire.
    - intros; now apply Bursting_idle. }
  split; [now rewrite E1|]. split; [now rewrite E1|].
  split; [|split].
  - intro Hlate. destruct B2 as (_ & _ & [(Hin & _)|(Ht & Hfi & _)]).
    + destruct Ga2 as [_ Hq]. unfold settled in Hq. rewrite Forall_forall in Hq.
      specialize (Hq b Hin). cbn [b burstTimer due] in Hq. unfold dueTime in Hlate. lia.
    + split; assumption.
  - intros Hearly Hquiet.
    assert (H1 : BurstHeld b (ctl a1)).
    { rewrite E1. unfold BurstHeld. cbn [timers now targetSpeedRef].
      split; [|reflexivity]. apply Forall_app. split.
      - rewrite Forall_forall in *. intros t Ht.
        destruct (Hsafe t Ht) as [Hv|Hbu]; [now left|now destruct (Hquiet t Ht)].
      - apply Forall_cons; [now right|apply Forall_nil]. }
    assert (H2 : BurstHeld b (ctl a2)).
    { rewrite E2. apply passive_run; try assumption.
      - intros; now apply BurstHeld_fire.
      - intros; now apply BurstHeld_idle. }
    apply H2. exact Hearly.
  - split; reflexivity.
Qed.

End Click.

Lemma C7_burst_then_sustained_witness :
  let a := run (fun _ => 1 # 2) [Elapse 9000; Change "a"%string] (mount 800 600 true) in
  let a1 := step (fun _ => 1 # 2) a Click in
  let a2 := run (fun _ => 1 # 2) [Frame; Elapse 1000; Frame; Elapse 2500; Frame] a1 in
  targetSpeedRef (ctl a1) = BURST_SPEED /\
  targetSpeedRef (ctl a2) = SUSTAINED_SPEED /\
  In (12500%N, BurstTimer) (fired (ctl a2)).
Proof.
  destruct (C7_burst_then_sustained (fun _ => 1 # 2) 800 600 true
              [Elapse 9000; Change "a"%string]
              [Frame; Elapse 1000; Frame; Elapse 2500; Frame])
    as (H1 & _ & H2 & _).
  - vm_compute; reflexivity.
  - vm_compute; reflexivity.
  - repeat constructor.
  - split; [exact H1|]. apply H2. vm_compute. discriminate.
Defined.

(** ** One star *)

Lemma Qleb_le a b : Qleb a b = true <-> a <= b.
Proof. apply Qle_bool_iff. Qed.

Lemma Qleb_gt a b : Qleb a b = false <-> b < a.
Proof.
  unfold Qleb. split; intro H.
  - apply Qnot_le_lt. intro Hle. apply Qle_bool_iff in Hle. congruence.
  - destruct (Qle_bool a b) eqn:E; [|reflexivity].
    apply Qle_bool_iff in E. exfalso. now apply (Qlt_not_le b a).
Qed.

Lemma Qltb_false a b : Qltb a b = false <-> b <= a.
Proof.
  unfold Qltb. rewrite negb_false_iff. apply Qle_bool_iff.
Qed.

Section Stars.

Variable random : nat -> Q.

Lemma advanceStar_respawn speed k star :
  Star.z star - speed <= MIN_Z ->
  advanceStar random speed k star
  = (Star.mk (randomCoord random k) (randomCoord random (1 + k)) MAX_Z None None,
     (2 + k)%nat).
Proof.
  intro H. unfold advanceStar. apply Qleb_le in H. now rewrite H.
Qed.

Lemma advanceStar_move speed k star :
  MIN_Z < Star.z star - speed ->
  advanceStar random speed k star
  = (Star.mk (Star.x star) (Star.y star) (Star.z star - speed)
       (Star.prevX star) (Star.prevY star), k).
Proof.
  intro H. unfold advanceStar. apply Qleb_gt in H. now rewrite H.
Qed.

Lemma advanceStar_depth speed k star :
  0 <= speed -> Star.z star <= MAX_Z ->
  depthOK (fst (advanceStar random speed k star)).
Proof.
  intros Hs Hz. unfold depthOK.
  destruct (Qlt_le_dec MIN_Z (Star.z star - speed)) as [H|H].
  - rewrite advanceStar_move by assumption. cbn. split; [assumption|lra].
  - rewrite advanceStar_respawn by assumption. cbn.
    split; [reflexivity|apply Qle_refl].
Qed.

Lemma drawStar_position w h cx cy star :
  let star' := fst (drawStar w h cx cy star) in
  Star.x star' = Star.x star /\ Star.y star' = Star.y star /\
  Star.z star' = Star.z star.
Proof.
  unfold drawStar. destruct (project star cx cy) as [sx sy].
  destruct (offSurface w h sx sy); cbn; repeat split.
Qed.


Lemma stepStar_eq speed w h cx cy k star :
  stepStar random speed w h cx cy k star
  = (fst (drawStar w h cx cy (fst (advanceStar random speed k star))),
     snd (drawStar w h cx cy (fst (advanceStar random speed k star))),
     snd (advanceStar random speed k star)).
Proof.
  unfold stepStar. destruct (advanceStar random speed k star) as [moved k'].
  cbn [fst snd]. now destruct (drawStar w h cx cy moved).
Qed.

Lemma stepStar_depth speed w h cx cy k star :
  0 <= speed -> Star.z star <= MAX_Z ->
  depthOK (fst (fst (stepStar random speed w h cx cy k star))).
Proof.
  intros Hs Hz. rewrite stepStar_eq. cbn [fst].
  pose proof (advanceStar_depth speed k star Hs Hz) as Hd.
  destruct (drawStar_position w h cx cy (fst (advanceStar random speed k star)))
    as (_ & _ & Ez).
  unfold depthOK in *. now rewrite Ez.
Qed.

Lemma stepStars_depth speed w h cx cy k stars :
  0 <= speed -> Forall (fun s => Star.z s <= MAX_Z) stars ->
  Forall depthOK (fst (fst (stepStars random speed w h cx cy k stars))).
Proof.
  intros Hs Hz. revert k. induction Hz as [|star stars Hstar _ IH]; intro k.
  - constructor.
  - cbn [stepStars].
    pose proof (stepStar_depth speed w h cx cy k star Hs Hstar) as Hd.
    destruct (stepStar random speed w h cx cy k star) as [[star' cmds] k'].
    specialize (IH k').
    destruct (stepStars random speed w h cx cy k' stars) as [[rest' cmds'] k''].
    cbn [fst] in *. now constructor.
Qed.

Hypothesis random_unit : unitRange random.

Lemma randomCoord_range k : -1 <= randomCoord random k /\ randomCoord random k < 1.
Proof.
  destruct (random_unit k) as [H0 H1]. unfold randomCoord. split; lra.
Qed.

Lemma initStarsFrom_depth n k :
  Forall (fun s => Star.z s <= MAX_Z) (initStarsFrom random n k).
Proof.
  revert k. induction n as [|n IH]; intro k; cbn [initStarsFrom]; constructor.
  - unfold initStar. cbn [Star.z].
    destruct (random_unit (2 + k)%nat) as [H0 H1]. unfold MAX_Z, MIN_Z. lra.
  - apply IH.
Qed.

End Stars.

(** ** The renderer keeps the stars in range *)

Lemma depthOK_le s : depthOK s -> Star.z s <= MAX_Z.
Proof. now intros [_ H]. Qed.

Lemma ease_nonneg speed target : 0 <= speed -> 0 <= target -> 0 <= ease speed target.
Proof. unfold ease. intros. lra. Qed.

Section Flight.

Variable random : nat -> Q.
Hypothesis random_unit : unitRange random.


Lemma flight_registerCleanup r :
  speedRef (registerCleanup r) = speedRef r /\
  starsRef (registerCleanup r) = starsRef r.
Proof. now destruct r. Qed.

Lemma flight_addResizeListener on r :
  speedRef (addResizeListener on r) = speedRef r /\
  starsRef (addResizeListener on r) = starsRef r.
Proof. now destruct r. Qed.

Lemma flight_setCanvasSize r :
  speedRef (setCanvasSize r) = speedRef r /\
  starsRef (setCanvasSize r) = starsRef r.
Proof. now destruct r. Qed.

Lemma flight_commitCanvas c r :
  speedRef (commitCanvas c r) = speedRef r /\
  starsRef (commitCanvas c r) = starsRef r.
Proof. now destruct r. Qed.

Lemma flight_runRendererCleanup r :
  speedRef (runRendererCleanup r) = speedRef r /\
  starsRef (runRendererCleanup r) = starsRef r.
Proof. now destruct r. Qed.

Lemma flight_initStars r :
  speedRef (initStars random r) = speedRef r /\
  starsRef (initStars random r) = initStarsFrom random NUM_STARS (randomCalls r).
Proof. now destruct r. Qed.











End Flight.

Lemma animate_stars (random : nat -> Q) c r :
  starsRef (animate random c r)
  = fst (fst (stepStars random (ease (speedRef r) (targetSpeedRef c))
                (px (fst (canvasSize r))) (px (snd (canvasSize r)))
                (px (fst (canvasSize r)) / 2) (px (snd (canvasSize r)) / 2)
                (randomCalls r) (starsRef r))).
Proof.
  destruct r as [stars sp afr cv iw ih c2d rl fr nf rc pt cl]. unfold animate.
  cbn [speedRef randomCalls starsRef].
  match goal with
  | |- context [stepStars random ?s ?w ?h ?cx ?cy ?k ?l] =>
      destruct (stepStars random s w h cx cy k l) as [[stars' cmds] k']
  end.
  reflexivity.
Qed.





(** ** Stars off the surface *)

Lemma px_nonneg n : 0 <= px n.
Proof. unfold px. change 0 with (inject_Z 0). rewrite <- Zle_Qle. lia. Qed.

(** A coordinate between -1 and 1 at depth [MAX_Z] projects onto the
    surface. *)
Lemma far_projection x size :
  -1 <= x -> x < 1 -> 0 <= size ->
  -50 <= x * (1 / MAX_Z) * (size / 2) + size / 2 /\
  x * (1 / MAX_Z) * (size / 2) + size / 2 <= size + 50.
Proof.
  intros H1 H2 Hs.
  assert (E1 : 1 / MAX_Z == 2 # 5) by reflexivity.
  assert (E2 : size / 2 == size * (1 # 2)) by reflexivity.
  rewrite E1, E2.
  assert (0 <= (x + 1) * size) by (apply Qmult_le_0_compat; lra).
  assert (0 <= (1 - x) * size) by (apply Qmult_le_0_compat; lra).
  split; lra.
Qed.

Lemma respawned_on_surface (random : nat -> Q) (w h : N) (k : nat) :
  unitRange random ->
  let star := Star.mk (randomCoord random k) (randomCoord random (1 + k))
                MAX_Z None None in
  offSurface (px w) (px h)
    (fst (project star (px w / 2) (px h / 2)))
    (snd (project star (px w / 2) (px h / 2))) = false.
Proof.
  intros Hr star. unfold offSurface, project. cbn [fst snd Star.x Star.y Star.z star].
  destruct (randomCoord_range random Hr k) as [Hx1 Hx2].
  destruct (randomCoord_range random Hr (1 + k)) as [Hy1 Hy2].
  destruct (far_projection _ _ Hx1 Hx2 (px_nonneg w)) as [Ax Bx].
  destruct (far_projection _ _ Hy1 Hy2 (px_nonneg h)) as [Ay By].
  apply Qltb_false in Ax, Bx, Ay, By. now rewrite Ax, Bx, Ay, By.
Qed.

(** C9.  A star whose projection in a frame lies more than 50 px outside the
    canvas is skipped in that frame: nothing is painted for it and its
    stored previous projection stays as it was.  The stored projection can
    therefore be stale when the star is next painted: a star skipped on a
    canvas of 1000 by 1000 and painted in the next frame on a canvas resized
    to 100 by 100 gets a trail from the projection stored before it was
    skipped. *)
Theorem C9_off_surface_skipped (random : nat -> Q) (speed : Q) (w h : N) (k : nat)
    (star : Star.t) :
  unitRange random ->
  let moved := fst (advanceStar random speed k star) in
  let result := stepStar random speed (px w) (px h) (px w / 2) (px h / 2) k star in
  offSurface (px w) (px h)
    (fst (project moved (px w / 2) (px h / 2)))
    (snd (project moved (px w / 2) (px h / 2))) = true ->
  (snd (fst result) = [] /\
   Star.prevX (fst (fst result)) = Star.prevX star /\
   Star.prevY (fst (fst result)) = Star.prevY star) /\
  (let stale := Star.mk 0.45 0 0.3 (Some 900) (Some 500) in
   let skipped := stepStar random 0.002 (px 1000) (px 1000) (px 1000 / 2)
                    (px 1000 / 2) 0 stale in
   let painted := stepStar random 0.002 (px 100) (px 100) (px 100 / 2)
                    (px 100 / 2) 0 (fst (fst skipped)) in
   snd (fst skipped) = [] /\
   Star.prevX (fst (fst skipped)) = Some 900 /\
   Star.prevY (fst (fst skipped)) = Some 500 /\
   exists toX toY alpha width,
     hd_error (snd (fst painted)) = Some (Stroke 900 500 toX toY alpha width)).
Proof.
  intros Hr moved result Hoff. split.
  - unfold result. rewrite stepStar_eq. cbn [fst snd]. fold moved.
    destruct (Qlt_le_dec MIN_Z (Star.z star - speed)) as [Hz|Hz].
    + assert (Em : moved = Star.mk (Star.x star) (Star.y star) (Star.z star - speed)
                             (Star.prevX star) (Star.prevY star))
        by (unfold moved; now rewrite advanceStar_move).
      unfold drawStar.
      destruct (project moved (px w / 2) (px h / 2)) as [sx sy].
      cbn [fst snd] in Hoff. rewrite Hoff. cbn [fst snd]. now rewrite Em.
    + exfalso.
      assert (Em : moved = Star.mk (randomCoord random k) (randomCoord random (1 + k))
                             MAX_Z None None)
        by (unfold moved; now rewrite advanceStar_respawn).
      rewrite Em, (respawned_on_surface random w h k Hr) in Hoff. discriminate.
  - vm_compute. repeat split. eexists _, _, _, _. reflexivity.
Qed.

Lemma C9_off_surface_skipped_witness :
  let star := Star.mk 0.45 0 0.3 (Some 900) (Some 500) in
  let result := stepStar (fun _ => 1 # 2) 0.002 (px 1000) (px 1000) (px 1000 / 2)
                  (px 1000 / 2) 0 star in
  snd (fst result) = [] /\
  Star.prevX (fst (fst result)) = Some 900 /\
  Star.prevY (fst (fst result)) = Some 500.
Proof.
  apply (C9_off_surface_skipped (fun _ => 1 # 2) 0.002 1000 1000 0
           (Star.mk 0.45 0 0.3 (Some 900) (Some 500))).
  - intro k. split; [vm_compute; discriminate|reflexivity].
  - vm_compute. reflexivity.
Defined.
(** ** How a star looks and where it goes *)

Lemma depth_ratio z : z / MAX_Z == z * (2 # 5).
Proof. unfold Qdiv. apply Qmult_comp; reflexivity. Qed.

Lemma starSize_eq star :
  starSize star == Qmax 0 ((1 - Star.z star * (2 # 5)) * 2).
Proof. unfold starSize. now rewrite depth_ratio. Qed.

Lemma starOpacity_eq star :
  starOpacity star == Qmin 1 ((1 - Star.z star * (2 # 5)) * (3 # 2)).
Proof.
  unfold starOpacity. rewrite depth_ratio.
  apply Q.min_compat; [reflexivity|]. apply Qmult_comp; reflexivity.
Qed.

(** The radius and the alpha of a star's circle: within their ranges for a
    depth in range, saturated or zero at the ends, and never smaller for a
    nearer star. *)
Theorem star_size_and_opacity (star near far : Star.t) :
  (depthOK star ->
   0 <= starSize star /\ starSize star < 2 /\
   0 <= starOpacity star /\ starOpacity star <= 1) /\
  (Star.z star <= 5 # 6 -> starOpacity star == 1) /\
  (Star.z star == MAX_Z -> starSize star == 0 /\ starOpacity star == 0) /\
  (Star.z near <= Star.z far ->
   starSize far <= starSize near /\ starOpacity far <= starOpacity near).
Proof.
  split; [|split; [|split]].
  - intros [Hlo Hhi]. unfold MIN_Z, MAX_Z in *.
    rewrite starSize_eq, starOpacity_eq.
    destruct (Q.max_spec 0 ((1 - Star.z star * (2 # 5)) * 2)) as [[H1 ->]|[H1 ->]];
    destruct (Q.min_spec 1 ((1 - Star.z star * (2 # 5)) * (3 # 2))) as [[H2 ->]|[H2 ->]];
      repeat split; lra.
  - intro Hz. rewrite starOpacity_eq. apply Q.min_l. lra.
  - intro Hz. unfold MAX_Z in Hz. rewrite starSize_eq, starOpacity_eq. split.
    + apply Q.max_l. rewrite Hz. lra.
    + rewrite Q.min_r; rewrite Hz; lra.
  - intro Hz. rewrite !starSize_eq, !starOpacity_eq. split.
    + apply Q.max_le_compat_l. lra.
    + apply Q.min_le_compat_l. lra.
Qed.

Lemma star_size_and_opacity_witness :
  let star := Star.mk 0 0 (1 # 2) None None in
  0 <= starSize star /\ starSize star < 2 /\
  0 <= starOpacity star /\ starOpacity star <= 1.
Proof.
  apply (proj1 (star_size_and_opacity (Star.mk 0 0 (1 # 2) None None)
                  (Star.mk 0 0 (1 # 2) None None) (Star.mk 0 0 (1 # 2) None None))).
  split; reflexivity || (vm_compute; discriminate).
Defined.

(** A trail is painted only for a star nearer than 0.5 that has a stored
    projection; it runs from that projection to the new one, and for a depth
    in range its alpha is 0.6, the opacity being saturated, and its width
    lies between 0.8 and 1. *)
Theorem trail_of_a_near_star (star : Star.t) (sx sy : Q) (cmd : DrawCmd) :
  depthOK star ->
  In cmd (trail star sx sy) ->
  exists fromX fromY alpha width,
    cmd = Stroke fromX fromY sx sy alpha width /\
    Star.prevX star = Some fromX /\ Star.prevY star = Some fromY /\
    Star.z star < 0.5 /\
    alpha == 0.6 /\ 0.8 < width /\ width < 1.
Proof.
  intros [Hlo Hhi] Hin. unfold trail in Hin.
  destruct (Star.prevX star) as [fromX|]; [|destruct Hin].
  destruct (Star.prevY star) as [fromY|]; [|destruct Hin].
  destruct (Qltb (Star.z star) 0.5) eqn:Hz; [|destruct Hin].
  destruct Hin as [<-|[]].
  assert (Hnear : Star.z star < 0.5).
  { unfold Qltb in Hz. apply negb_true_iff in Hz. now apply Qleb_gt in Hz. }
  exists fromX, fromY, (starOpacity star * 0.6), (starSize star * 0.5).
  repeat split; try assumption.
  - rewrite starOpacity_eq, Q.min_l by lra. reflexivity.
  - rewrite starSize_eq, Q.max_r by lra. lra.
  - rewrite starSize_eq, Q.max_r by lra. unfold MIN_Z in Hlo. lra.
Qed.

Lemma trail_of_a_near_star_witness :
  let star := Star.mk 0 0 0.3 (Some 10) (Some 20) in
  exists fromX fromY alpha width,
    Stroke 10 20 5 6 (starOpacity star * 0.6) (starSize star * 0.5)
    = Stroke fromX fromY 5 6 alpha width /\
    Star.prevX star = Some fromX /\ Star.prevY star = Some fromY /\
    Star.z star < 0.5 /\
    alpha == 0.6 /\ 0.8 < width /\ width < 1.
Proof.
  apply (trail_of_a_near_star (Star.mk 0 0 0.3 (Some 10) (Some 20)) 5 6).
  - split; reflexivity || (vm_compute; discriminate).
  - vm_compute. left. reflexivity.
Defined.
Lemma Qinv_antitone a b : 0 < a -> a <= b -> / b <= / a.
Proof.
  intros Ha Hab. apply Qle_lteq in Hab. destruct Hab as [Hlt|Heq].
  - assert (Hb : 0 < b) by lra.
    apply Qlt_le_weak. now apply (proj1 (Qinv_lt_contravar a b Ha Hb)).
  - rewrite Heq. apply Qle_refl.
Qed.

(** The offset of a projected coordinate from the centre, [x * (1 / z) * c],
    keeps the sign of [x] and does not shrink as the depth decreases. *)
Lemma offset_grows x z z' c :
  0 < z' -> z' <= z -> 0 <= c ->
  (0 <= x -> 0 <= x * (1 / z) * c /\ x * (1 / z) * c <= x * (1 / z') * c) /\
  (x <= 0 -> x * (1 / z') * c <= x * (1 / z) * c /\ x * (1 / z) * c <= 0).
Proof.
  intros Hz' Hz Hc.
  assert (Hi : / z <= / z') by now apply Qinv_antitone.
  assert (Hp : 0 <= / z) by (apply Qinv_le_0_compat; lra).
  assert (E : forall u, 1 / u == / u) by (intro; unfold Qdiv; ring).
  rewrite !E.
  assert (Hd : 0 <= (/ z' - / z) * c) by (apply Qmult_le_0_compat; lra).
  assert (Hq : 0 <= / z * c) by (apply Qmult_le_0_compat; lra).
  split; intro Hx.
  - assert (0 <= x * (/ z * c)) by (apply Qmult_le_0_compat; lra).
    assert (0 <= x * ((/ z' - / z) * c)) by (apply Qmult_le_0_compat; lra).
    split; lra.
  - assert (0 <= (- x) * (/ z * c)) by (apply Qmult_le_0_compat; lra).
    assert (0 <= (- x) * ((/ z' - / z) * c)) by (apply Qmult_le_0_compat; lra).
    split; lra.
Qed.

Section Radiating.

Variable random : nat -> Q.

Lemma px_half_nonneg (n : N) : 0 <= px n / 2.
Proof.
  pose proof (px_nonneg n). unfold Qdiv. apply Qmult_le_0_compat; [assumption|].
  vm_compute. discriminate.
Qed.

Lemma projection_recedes (speed cx cy : Q) (k : nat) (star : Star.t) :
  0 <= speed -> 0 <= cx -> 0 <= cy ->
  MIN_Z < Star.z star - speed ->
  let moved := fst (advanceStar random speed k star) in
  let before := project star cx cy in
  let after := project moved cx cy in
  (0 <= Star.x star -> cx <= fst before /\ fst before <= fst after) /\
  (Star.x star <= 0 -> fst after <= fst before /\ fst before <= cx) /\
  (0 <= Star.y star -> cy <= snd before /\ snd before <= snd after) /\
  (Star.y star <= 0 -> snd after <= snd before /\ snd before <= cy).
Proof.
  intros Hs Hcx Hcy Hz moved before after.
  assert (Em : moved = Star.mk (Star.x star) (Star.y star) (Star.z star - speed)
                         (Star.prevX star) (Star.prevY star))
    by (unfold moved; now rewrite advanceStar_move).
  unfold before, after, project. rewrite Em. cbn [fst snd Star.x Star.y Star.z].
  unfold MIN_Z in Hz.
  assert (H0 : 0 < Star.z star - speed) by lra.
  assert (H1 : Star.z star - speed <= Star.z star) by lra.
  destruct (offset_grows (Star.x star) _ _ cx H0 H1 Hcx) as [Xp Xn].
  destruct (offset_grows (Star.y star) _ _ cy H0 H1 Hcy) as [Yp Yn].
  repeat split; intros;
    try (destruct (Xp ltac:(assumption)); lra);
    try (destruct (Xn ltac:(assumption)); lra);
    try (destruct (Yp ltac:(assumption)); lra);
    try (destruct (Yn ltac:(assumption)); lra).
Qed.

(** In a frame that does not respawn it, a star moves away from the centre
    of the canvas, or stays where it is: each projected coordinate keeps its
    side of the centre and its distance from the centre does not shrink. *)
Theorem stars_radiate (speed : Q) (w h : N) (k : nat) (star : Star.t) :
  0 <= speed ->
  MIN_Z < Star.z star - speed ->
  let cx := px w / 2 in
  let cy := px h / 2 in
  let moved := fst (advanceStar random speed k star) in
  let before := project star cx cy in
  let after := project moved cx cy in
  (0 <= Star.x star -> cx <= fst before /\ fst before <= fst after) /\
  (Star.x star <= 0 -> fst after <= fst before /\ fst before <= cx) /\
  (0 <= Star.y star -> cy <= snd before /\ snd before <= snd after) /\
  (Star.y star <= 0 -> snd after <= snd before /\ snd before <= cy).
Proof.
  intros Hs Hz cx cy.
  exact (projection_recedes speed cx cy k star Hs (px_half_nonneg w) (px_half_nonneg h) Hz).
Qed.

(** On a canvas that keeps its size, a star off the surface stays off the
    surface in the next frame unless that frame respawns it. *)
Theorem skipped_star_stays_skipped (speed : Q) (w h : N) (k : nat) (star : Star.t) :
  0 <= speed ->
  MIN_Z < Star.z star - speed ->
  let moved := fst (advanceStar random speed k star) in
  let before := project star (px w / 2) (px h / 2) in
  let after := project moved (px w / 2) (px h / 2) in
  offSurface (px w) (px h) (fst before) (snd before) = true ->
  offSurface (px w) (px h) (fst after) (snd after) = true.
Proof.
  intros Hs Hz moved before after Hoff.
  pose proof (px_half_nonneg w) as Hcx. pose proof (px_half_nonneg h) as Hcy.
  destruct (projection_recedes speed (px w / 2) (px h / 2) k star Hs Hcx Hcy Hz)
    as (Xp & Xn & Yp & Yn).
  fold moved before after in Xp, Xn, Yp, Yn.
  assert (Ew : px w / 2 == px w * (1 # 2)) by reflexivity.
  assert (Eh : px h / 2 == px h * (1 # 2)) by reflexivity.
  pose proof (px_nonneg w) as Hw. pose proof (px_nonneg h) as Hh.
  unfold offSurface in *.
  apply orb_true_iff in Hoff. destruct Hoff as [Hoff|Hy2].
  - apply orb_true_iff in Hoff. destruct Hoff as [Hoff|Hy1].
    + apply orb_true_iff in Hoff. destruct Hoff as [Hx1|Hx2].
      * (* left of the surface *)
        unfold Qltb in Hx1. apply negb_true_iff, Qleb_gt in Hx1.
        assert (Hneg : Star.x star <= 0).
        { destruct (Qlt_le_dec 0 (Star.x star)) as [Hp|]; [|assumption].
          destruct (Xp (Qlt_le_weak _ _ Hp)). lra. }
        destruct (Xn Hneg).
        assert (Hlt : Qltb (fst after) (-50) = true).
        { unfold Qltb. apply negb_true_iff, Qleb_gt. lra. }
        now rewrite Hlt.
      * unfold Qltb in Hx2. apply negb_true_iff, Qleb_gt in Hx2.
        assert (Hpos : 0 <= Star.x star).
        { destruct (Qlt_le_dec (Star.x star) 0) as [Hn|]; [|assumption].
          destruct (Xn (Qlt_le_weak _ _ Hn)). lra. }
        destruct (Xp Hpos).
        assert (Hlt : Qltb (px w + 50) (fst after) = true).
        { unfold Qltb. apply negb_true_iff, Qleb_gt. lra. }
        rewrite Hlt. now rewrite orb_true_r.
    + unfold Qltb in Hy1. apply negb_true_iff, Qleb_gt in Hy1.
      assert (Hneg : Star.y star <= 0).
      { destruct (Qlt_le_dec 0 (Star.y star)) as [Hp|]; [|assumption].
        destruct (Yp (Qlt_le_weak _ _ Hp)). lra. }
      destruct (Yn Hneg).
      assert (Hlt : Qltb (snd after) (-50) = true).
      { unfold Qltb. apply negb_true_iff, Qleb_gt. lra. }
      rewrite Hlt. now rewrite !orb_true_r.
  - unfold Qltb in Hy2. apply negb_true_iff, Qleb_gt in Hy2.
    assert (Hpos : 0 <= Star.y star).
    { destruct (Qlt_le_dec (Star.y star) 0) as [Hn|]; [|assumption].
      destruct (Yn (Qlt_le_weak _ _ Hn)). lra. }
    destruct (Yp Hpos).
    assert (Hlt : Qltb (px h + 50) (snd after) = true).
    { unfold Qltb. apply negb_true_iff, Qleb_gt. lra. }
    rewrite Hlt. now rewrite !orb_true_r.
Qed.

End Radiating.

(** ** Invariants of runs *)

Section Invariants.

Variable random : nat -> Q.

(** An invariant of single timers and of idle waits is an invariant of the
    event loop of the whole component. *)
Lemma elapseLoop_invariant (P : App -> Prop) :
  (forall a t, Sequenced (ctl a) -> P a -> earliest (timers (ctl a)) = Some t ->
               P (fireApp random t a)) ->
  (forall a t, P a -> P {| ctl := idle t (ctl a); view := view a |}) ->
  forall fuel target a,
    Sequenced (ctl a) -> P a -> P (elapseLoop random fuel target a).
Proof.
  intros Hfire Hidle fuel target.
  induction fuel as [|fuel IH]; intros a Hs Hp; cbn [elapseLoop].
  - now apply Hidle.
  - destruct (earliest (timers (ctl a))) as [t|] eqn:He; [|now apply Hidle].
    destruct (due t <=? target)%N; [|now apply Hidle].
    apply IH.
    + rewrite ctl_fireApp. now apply Sequenced_fire.
    + now apply Hfire.
Qed.

Lemma run_invariant (P : App -> Prop) :
  (forall a t, Sequenced (ctl a) -> P a -> earliest (timers (ctl a)) = Some t ->
               P (fireApp random t a)) ->
  (forall a t, P a -> P {| ctl := idle t (ctl a); view := view a |}) ->
  (forall a e, Good a -> P a -> (forall d, e <> Elapse d) -> P (step random a e)) ->
  forall es a, Good a -> P a -> P (run random es a).
Proof.
  intros Hfire Hidle Hstep es.
  induction es as [|e es IH]; intros a Hg Hp; [exact Hp|].
  cbn [run fold_left]. apply IH; [now apply Good_step|].
  destruct e as [d| |w h|v| |];
    try (apply Hstep; [assumption|assumption|discriminate]).
  cbn [step]. unfold elapse. apply elapseLoop_invariant; try assumption. apply Hg.
Qed.

End Invariants.

(** ** The phase only moves forward *)

Lemma stage_rank n n' :
  (n <= n' <= 9)%nat ->
  (phaseRank (phase (stage n)) <= phaseRank (phase (stage n')))%nat.
Proof.
  intros [H1 H2].
  assert (Hr : forall k, (k <= 9)%nat ->
             phaseRank (phase (stage k))
             = if Nat.eqb k 0 then 0%nat else if Nat.leb k 6 then 1%nat
               else if Nat.leb k 7 then 2%nat else 3%nat).
  { intros k Hk. do 10 (destruct k as [|k]; [reflexivity|]). lia. }
  rewrite (Hr n), (Hr n') by lia.
  destruct (Nat.eqb_spec n 0), (Nat.eqb_spec n' 0),
    (Nat.leb_spec n 6), (Nat.leb_spec n' 6),
    (Nat.leb_spec n 7), (Nat.leb_spec n' 7); lia.
Qed.

Lemma fire_rank c t :
  Sequenced c -> earliest (timers c) = Some t ->
  (phaseRank (phase c) <= phaseRank (phase (fire t c)))%nat.
Proof.
  intros [_ Hs] He. destruct (mounted c) eqn:Em.
  - destruct (Hs eq_refl) as (Hno & n & Hn & Hst).
    destruct (Staged_fire n c t Hn Hst Hno He) as (n' & Hn' & Hst').
    destruct Hst as (_ & -> & _). destruct Hst' as (_ & -> & _).
    now apply stage_rank.
  - rewrite phase_fire, Em. now destruct (phaseOf (callback t)).
Qed.

(** ** The states of the renderer *)

Section RendererStates.

Variable random : nat -> Q.

Lemma stepStars_length speed w h cx cy k stars :
  List.length (fst (fst (stepStars random speed w h cx cy k stars)))
  = List.length stars.
Proof.
  revert k. induction stars as [|star stars IH]; intro k; [reflexivity|].
  cbn [stepStars].
  destruct (stepStar random speed w h cx cy k star) as [[star' cmds] k'].
  specialize (IH k').
  destruct (stepStars random speed w h cx cy k' stars) as [[rest' cmds'] k''].
  cbn [fst List.length] in *. now rewrite IH.
Qed.

Lemma initStarsFrom_length n k : List.length (initStarsFrom random n k) = n.
Proof.
  revert k. induction n as [|n IH]; intro k; [reflexivity|].
  cbn [initStarsFrom List.length]. now rewrite IH.
Qed.

(** What one run of [animate] leaves alone and what it sets. *)
Lemma animate_shell c r :
  canvas (animate random c r) = canvas r /\
  innerWidth (animate random c r) = innerWidth r /\
  innerHeight (animate random c r) = innerHeight r /\
  context2d (animate random c r) = context2d r /\
  resizeListener (animate random c r) = resizeListener r /\
  rendererCleanup (animate random c r) = rendererCleanup r /\
  frameRequest (animate random c r) = Some (nextFrame r) /\
  animationFrameRef (animate random c r) = Some (nextFrame r) /\
  List.length (starsRef (animate random c r)) = List.length (starsRef r) /\
  painted (animate random c r) <> [].
Proof.
  destruct r as [stars sp afr cv iw ih c2d rl fr nf rc pt cl]. unfold animate.
  match goal with
  | |- context [stepStars random ?s ?w ?h ?cx ?cy ?k ?l] =>
      pose proof (stepStars_length s w h cx cy k l) as Hl;
      destruct (stepStars random s w h cx cy k l) as [[stars' cmds] k']
  end.
  cbn [fst] in Hl. cbn. repeat split; try assumption.
  now destruct pt.
Qed.

Lemma Animated_effect c r :
  canvas r = Some (innerWidth r, innerHeight r) ->
  resizeListener r = true ->
  List.length (starsRef r) = NUM_STARS ->
  Animated (registerCleanup (animate random c r)).
Proof.
  intros Hc Hl Hn.
  destruct (animate_shell c r) as (E1 & E2 & E3 & E4 & E5 & E6 & E7 & E8 & E9 & E10).
  destruct (animate random c r) as [stars sp afr cv iw ih c2d rl fr nf rc pt cl].
  cbn in *. subst. unfold Animated. cbn.
  repeat split; try assumption; try congruence.
  eexists. split; reflexivity.
Qed.

Lemma rerender_dormant c r :
  phase c = silence \/ phase c = breath ->
  Dormant r -> Dormant (rerender random c r).
Proof.
  intros Hp (H1 & H2 & H3 & H4 & H5 & H6 & H7 & H8).
  destruct r as [stars sp afr cv iw ih c2d rl fr nf rc pt cl].
  cbn in *. subst. unfold rerender, rendererEffect, commitCanvas.
  destruct Hp as [-> | ->]; cbn; repeat split.
Qed.

Lemma rerender_blind c r :
  phase c = awakening \/ phase c = ready ->
  context2d r = false ->
  Dormant r \/ Blind r -> Blind (rerender random c r).
Proof.
  intros Hp Hc Hr.
  destruct r as [stars sp afr cv iw ih c2d rl fr nf rc pt cl].
  cbn in Hc. subst.
  destruct Hr as [(H1 & H2 & H3 & H4 & H5 & H6 & H7 & H8)
                 |(H1 & H2 & H3 & H4 & H5 & H6 & H7 & H8)];
    cbn in *; subst; unfold rerender, rendererEffect, commitCanvas;
    destruct Hp as [-> | ->]; cbn; repeat split.
Qed.

Lemma rerender_animated c r :
  phase c = awakening \/ phase c = ready ->
  context2d r = true ->
  Dormant r \/ Animated r -> Animated (rerender random c r).
Proof.
  intros Hp Hc Hr.
  destruct r as [stars sp afr cv iw ih c2d rl fr nf rc pt cl].
  cbn in Hc. subst.
  assert (Hact : forall r', rendererEffect random c r'
            = match canvas r' with
              | None => r'
              | Some _ =>
                  if negb (context2d r') then r'
                  else registerCleanup
                         (animate random c
                            match starsRef (addResizeListener true (setCanvasSize r')) with
                            | [] => initStars random (addResizeListener true (setCanvasSize r'))
                            | _ => addResizeListener true (setCanvasSize r')
                            end)
              end).
  { intro r'. unfold rendererEffect. now destruct Hp as [-> | ->]. }
  unfold rerender. rewrite Hact.
  destruct Hr as [(H1 & H2 & H3 & H4 & H5 & H6 & H7 & H8)
                 |(H1 & H2 & H3 & (id & H4 & H4') & H5 & H6)];
    cbn in H1, H2, H3, H4, H5, H6; subst.
  - unfold commitCanvas. destruct Hp as [-> | ->];
      cbn [rendererCleanup canvas context2d negb setCanvasSize addResizeListener
           starsRef initStars];
      apply Animated_effect; cbn [canvas innerWidth innerHeight resizeListener starsRef];
      try reflexivity; apply initStarsFrom_length.
  - cbn in H4'. subst. unfold commitCanvas. destruct Hp as [-> | ->];
      cbn [rendererCleanup runRendererCleanup canvas context2d negb setCanvasSize
           addResizeListener starsRef];
      (destruct stars as [|star stars]; [discriminate H5|]);
      apply Animated_effect; cbn [canvas innerWidth innerHeight resizeListener starsRef];
      try reflexivity; assumption.
Qed.

End RendererStates.

Section RendererRuns.

Variable random : nat -> Q.

Lemma rerender_context2d c r : context2d (rerender random c r) = context2d r.
Proof.
  unfold rerender, rendererEffect.
  assert (H0 : context2d (commitCanvas c r) = context2d r) by now destruct r.
  assert (H1 : context2d (if rendererCleanup (commitCanvas c r)
                          then runRendererCleanup (commitCanvas c r)
                          else commitCanvas c r) = context2d r).
  { destruct (rendererCleanup (commitCanvas c r)); [|exact H0].
    rewrite <- H0. now destruct (commitCanvas c r). }
  set (r2 := if rendererCleanup (commitCanvas c r)
             then runRendererCleanup (commitCanvas c r) else commitCanvas c r) in *.
  assert (H2 : forall r', context2d (registerCleanup (animate random c r')) = context2d r').
  { intro r'. destruct (animate_shell random c r') as (_ & _ & _ & E & _).
    rewrite <- E. now destruct (animate random c r'). }
  assert (H3 : context2d (addResizeListener true (setCanvasSize r2)) = context2d r2)
    by now destruct r2.
  destruct (phase c); try exact H1;
    (destruct (canvas r2); [|exact H1]);
    (destruct (negb (context2d r2)); [exact H1|]);
    rewrite H2;
    (destruct (starsRef (addResizeListener true (setCanvasSize r2)));
       [|now rewrite H3]);
    rewrite <- H1, <- H3; now destruct (addResizeListener true (setCanvasSize r2)).
Qed.

Lemma phase_eqb_eq p q : phase_eqb p q = true <-> p = q.
Proof. destruct p, q; cbn; split; congruence. Qed.

Lemma Rendering_fireApp a t :
  Sequenced (ctl a) -> Rendering a -> earliest (timers (ctl a)) = Some t ->
  Rendering (fireApp random t a).
Proof.
  intros Hs Hr He. unfold Rendering, fireApp in *. cbn [ctl view].
  rewrite mounted_fire.
  destruct (phase_eqb (phase (ctl a)) (phase (fire t (ctl a)))) eqn:E.
  - apply phase_eqb_eq in E. now rewrite <- E.
  - assert (Hne : phase (ctl a) <> phase (fire t (ctl a))).
    { intro H. apply phase_eqb_eq in H. congruence. }
    pose proof (fire_rank _ _ Hs He) as Hrank.
    assert (Hm : mounted (ctl a) = true).
    { destruct (mounted (ctl a)) eqn:Em; [reflexivity|exfalso]. apply Hne.
      rewrite phase_fire, Em. now destruct (phaseOf (callback t)). }
    rewrite Hm in *. rewrite rerender_context2d.
    destruct (phase (fire t (ctl a))) eqn:Ep';
      destruct (phase (ctl a)) eqn:Ep; cbn in Hrank; try lia; try congruence;
      try (apply rerender_dormant; [rewrite Ep'; auto|assumption]);
      destruct (context2d (view a)) eqn:Ec;
      first [ apply rerender_animated; [rewrite Ep'; auto|assumption|auto]
            | apply rerender_blind; [rewrite Ep'; auto|assumption|auto] ].
Qed.

Lemma Rendering_idle a t :
  Rendering a -> Rendering {| ctl := idle t (ctl a); view := view a |}.
Proof. unfold Rendering. cbn [ctl view]. now rewrite idle_eq. Qed.

Lemma Rendering_frame a :
  Rendering a -> Rendering {| ctl := ctl a; view := frame random (ctl a) (view a) |}.
Proof.
  unfold Rendering, frame. cbn [ctl view]. intro Hr.
  destruct (frameRequest (view a)) as [id|] eqn:Ef; [|exact Hr].
  destruct (animate_shell random (ctl a) (view a))
    as (E1 & E2 & E3 & E4 & E5 & E6 & E7 & E8 & E9 & E10).
  rewrite E4.
  destruct (phase (ctl a)).
  - destruct Hr as (_ & _ & _ & H & _). congruence.
  - destruct Hr as (_ & _ & _ & H & _). congruence.
  - destruct (mounted (ctl a)).
    + destruct (context2d (view a)).
      * destruct Hr as (H1 & H2 & H3 & H4 & H5 & H6).
        unfold Animated. rewrite E1, E2, E3, E5, E6, E7, E8, E9.
        repeat split; try assumption. eexists. split; reflexivity.
      * destruct Hr as (_ & _ & _ & H & _). congruence.
    + destruct Hr as (_ & H & _). congruence.
  - destruct (mounted (ctl a)).
    + destruct (context2d (view a)).
      * destruct Hr as (H1 & H2 & H3 & H4 & H5 & H6).
        unfold Animated. rewrite E1, E2, E3, E5, E6, E7, E8, E9.
        repeat split; try assumption. eexists. split; reflexivity.
      * destruct Hr as (_ & _ & _ & H & _). congruence.
    + destruct Hr as (_ & H & _). congruence.
Qed.

Lemma Rendering_resize a w h :
  Rendering a -> Rendering {| ctl := ctl a; view := resize w h (view a) |}.
Proof.
  unfold Rendering. cbn [ctl view]. intro Hr.
  destruct (view a) as [stars sp afr cv iw ih c2d rl fr nf rc pt cl].
  unfold Dormant, Blind, Animated, Stopped in *. cbn in Hr.
  destruct (phase (ctl a)); [| |destruct (mounted (ctl a)); [destruct c2d|]
                                |destruct (mounted (ctl a)); [destruct c2d|]];
    cbn; decompose record Hr; subst; cbn; repeat split; try assumption;
    try (eexists; split; reflexivity); try tauto.
Qed.

Lemma Rendering_unmount a :
  mounted (ctl a) = true -> Rendering a ->
  Rendering {| ctl := unmountControl (ctl a); view := unmountRender (view a) |}.
Proof.
  unfold Rendering. cbn [ctl view]. intros Hm Hr.
  rewrite unmountControl_eq. cbn [phase mounted]. rewrite Hm in Hr.
  destruct (view a) as [stars sp afr cv iw ih c2d rl fr nf rc pt cl].
  unfold Dormant, Blind, Animated, Stopped in *. cbn in Hr.
  destruct (phase (ctl a)); [| |destruct c2d|destruct c2d];
    decompose record Hr; subst; cbn; rewrite ?Nat.eqb_refl;
    repeat split; auto; try discriminate;
    match goal with
    | H : Some _ = Some _ |- _ => injection H as <-; cbn; rewrite ?Nat.eqb_refl; auto
    | _ => idtac
    end.
Qed.

Lemma Rendering_step a e :
  Good a -> Rendering a -> (forall d, e <> Elapse d) -> Rendering (step random a e).
Proof.
  intros _ Hr He. destruct e as [d| |w h|v| |]; cbn [step].
  - now destruct (He d).
  - now apply Rendering_frame.
  - now apply Rendering_resize.
  - unfold Rendering in *. cbn [ctl view]. rewrite change_eq.
    now destruct (_ && _).
  - unfold Rendering in *. cbn [ctl view]. rewrite click_eq.
    now destruct (_ && _).
  - destruct (mounted (ctl a)) eqn:Em; [|assumption]. now apply Rendering_unmount.
Qed.

Lemma Rendering_run w h has2d es : Rendering (run random es (mount w h has2d)).
Proof.
  apply run_invariant.
  - apply Rendering_fireApp.
  - intros; now apply Rendering_idle.
  - apply Rendering_step.
  - apply Good_mount.
  - unfold Rendering, Dormant. cbn. repeat split.
Qed.

End RendererRuns.

Section RendererFacts.

Variable random : nat -> Q.

Lemma context2d_run w h has2d es :
  context2d (view (run random es (mount w h has2d))) = has2d.
Proof.
  apply (run_invariant random (fun a => context2d (view a) = has2d)).
  - intros a t _ H _. unfold fireApp. cbn [view].
    destruct (phase_eqb _ _); [exact H|]. now rewrite rerender_context2d.
  - intros a t H. exact H.
  - intros a e _ H He. destruct e as [d| |w' h'|v| |]; cbn [step view]; try exact H.
    + now destruct (He d).
    + unfold frame. destruct (frameRequest (view a)); [|exact H].
      destruct (animate_shell random (ctl a) (view a)) as (_ & _ & _ & E & _).
      now rewrite E.
    + rewrite <- H. destruct (view a) as [stars sp afr cv iw ih c2d rl fr nf rc pt cl].
      cbn. now destruct rl.
    + destruct (mounted (ctl a)); [|exact H]. cbn [view]. rewrite <- H.
      destruct (view a) as [stars sp afr cv iw ih c2d rl fr nf rc pt cl].
      cbn. now destruct cl.
  - apply Good_mount.
  - reflexivity.
Qed.

(** While mounted, the phase is the scheduled one. *)
Lemma phase_at_now w h has2d es :
  let c := ctl (run random es (mount w h has2d)) in
  mounted c = true -> phase c = phaseAt (now c).
Proof.
  intros c Hm. subst c.
  destruct (Good_run random es _ (Good_mount w h has2d)) as [[_ Hs] Hq].
  destruct (Hs Hm) as (_ & n & Hn & Hst).
  pose proof (Staged_dueBy n _ Hn Hst Hq) as ->.
  destruct Hst as (_ & -> & _).
  now destruct (stage_schedule (now (ctl (run random es (mount w h has2d))))).
Qed.

Lemma phaseAt_early t : (t < 6000)%N -> phaseAt t = silence \/ phaseAt t = breath.
Proof.
  intro H. unfold phaseAt.
  destruct (N.leb_spec 9000 t); [lia|]. destruct (N.leb_spec 6000 t); [lia|].
  destruct (N.leb_spec 2500 t); auto.
Qed.

Lemma phaseAt_late t : (6000 <= t)%N -> phaseAt t = awakening \/ phaseAt t = ready.
Proof.
  intro H. unfold phaseAt.
  destruct (N.leb_spec 9000 t); [auto|]. destruct (N.leb_spec 6000 t); [auto|lia].
Qed.

(** The renderer does nothing before the awakening.  In every run, in the
    phases silence and breath, and so for a mounted component at every time
    before 6000 ms: there is no canvas, no star, no painting, no frame
    request and no resize listener, no random number has been drawn and the
    speed is the initial one. *)
Theorem renderer_dormant_before_awakening (w h : N) (has2d : bool) (es : list Event) :
  let a := run random es (mount w h has2d) in
  (phase (ctl a) = silence \/ phase (ctl a) = breath -> Dormant (view a)) /\
  (mounted (ctl a) = true -> (now (ctl a) < 6000)%N -> Dormant (view a)).
Proof.
  intro a. subst a.
  set (a := run random es (mount w h has2d)) in *.
  assert (H : phase (ctl a) = silence \/ phase (ctl a) = breath -> Dormant (view a)).
  { pose proof (Rendering_run random w h has2d es) as Hr. fold a in Hr.
    unfold Rendering in Hr. intros [E|E]; now rewrite E in Hr. }
  split; [exact H|]. intros Hm Hn. apply H.
  pose proof (phase_at_now w h has2d es Hm) as Hp. fold a in Hp.
  rewrite Hp. now apply phaseAt_early.
Qed.

(** With a 2D context, the renderer is at work whenever the component is
    mounted in the phases awakening and ready, and so at every time from
    6000 ms on: the canvas has the size of the window, the resize listener is
    registered, the frame requested last is pending, and there are exactly
    [NUM_STARS] stars. *)
Theorem renderer_at_work_from_awakening (w h : N) (es : list Event) :
  let a := run random es (mount w h true) in
  mounted (ctl a) = true ->
  (phase (ctl a) = awakening \/ phase (ctl a) = ready -> Animated (view a)) /\
  ((6000 <= now (ctl a))%N -> Animated (view a)).
Proof.
  intros a Hm. subst a.
  set (a := run random es (mount w h true)) in *.
  assert (H : phase (ctl a) = awakening \/ phase (ctl a) = ready -> Animated (view a)).
  { pose proof (Rendering_run random w h true es) as Hr.
    pose proof (context2d_run w h true es) as Hc.
    fold a in Hr, Hc. unfold Rendering in Hr. rewrite Hm, Hc in Hr.
    intros [E|E]; now rewrite E in Hr. }
  split; [exact H|]. intro Hn. apply H.
  pose proof (phase_at_now w h true es Hm) as Hp. fold a in Hp.
  rewrite Hp. now apply phaseAt_late.
Qed.

(** Without a 2D context the renderer never does anything: no star, no
    painting, no frame request, no resize listener, in any run. *)
Theorem renderer_without_context_is_idle (w h : N) (es : list Event) :
  let r := view (run random es (mount w h false)) in
  starsRef r = [] /\ painted r = [] /\ frameRequest r = None /\
  resizeListener r = false.
Proof.
  intro r.
  pose proof (Rendering_run random w h false es) as Hr.
  pose proof (context2d_run w h false es) as Hc.
  unfold Rendering in Hr. fold r in Hr, Hc. rewrite Hc in Hr.
  destruct (phase (ctl (run random es (mount w h false))));
    [| |destruct (mounted _)|destruct (mounted _)];
    unfold Dormant, Blind, Stopped in Hr; decompose record Hr;
    try (match goal with H : context2d _ = false -> _ |- _ => destruct (H Hc) end);
    repeat split; assumption.
Qed.

End RendererFacts.

Lemma renderer_dormant_before_awakening_witness :
  Dormant (view (run (fun _ => 1 # 2) [Elapse 3000; Frame] (mount 800 600 true))).
Proof.
  pose proof (renderer_dormant_before_awakening (fun _ => 1 # 2) 800 600 true
                [Elapse 3000; Frame]) as H.
  cbn zeta in H. apply (proj1 H). right. vm_compute. reflexivity.
Defined.

Lemma renderer_at_work_from_awakening_witness :
  Animated (view (run (fun _ => 1 # 2) [Elapse 6000; Frame] (mount 800 600 true))).
Proof.
  pose proof (renderer_at_work_from_awakening (fun _ => 1 # 2) 800 600
                [Elapse 6000; Frame]) as H.
  cbn zeta in H.
  assert (Hm : mounted (ctl (run (fun _ => 1 # 2) [Elapse 6000; Frame]
                               (mount 800 600 true))) = true)
    by (vm_compute; reflexivity).
  apply (proj1 (H Hm)). left. vm_compute. reflexivity.
Defined.

Section Teardown.

Variable random : nat -> Q.

(** The cleanup of the renderer stops it for good.  Once the component has
    unmounted, no frame is pending, the resize listener is gone and the
    canvas is detached; and whatever happens afterwards, timers of the
    sequencer that still run included, nothing more is painted and the stars
    and the speed stay as they were. *)
Theorem renderer_stopped_after_unmount (w h : N) (has2d : bool) (es later : list Event) :
  let a := run random es (mount w h has2d) in
  let a' := run random later a in
  mounted (ctl a) = false ->
  frameRequest (view a') = None /\
  resizeListener (view a') = false /\
  canvas (view a') = None /\
  painted (view a') = painted (view a) /\
  starsRef (view a') = starsRef (view a) /\
  speedRef (view a') = speedRef (view a).
Proof.
  intros a a' Hm.
  assert (H0 : frameRequest (view a) = None /\ resizeListener (view a) = false /\
               canvas (view a) = None).
  { pose proof (Rendering_run random w h has2d es) as Hr. fold a in Hr.
    unfold Rendering in Hr. rewrite Hm in Hr.
    destruct (phase (ctl a)); unfold Dormant, Stopped in Hr;
      decompose record Hr; repeat split; assumption. }
  destruct H0 as (F0 & L0 & C0).
  assert (Hinv : mounted (ctl a') = false /\
                 frameRequest (view a') = None /\
                 resizeListener (view a') = false /\
                 canvas (view a') = None /\
                 painted (view a') = painted (view a) /\
                 starsRef (view a') = starsRef (view a) /\
                 speedRef (view a') = speedRef (view a)).
  { unfold a'.
    apply (run_invariant random
             (fun x => mounted (ctl x) = false /\
                       frameRequest (view x) = None /\
                       resizeListener (view x) = false /\
                       canvas (view x) = None /\
                       painted (view x) = painted (view a) /\
                       starsRef (view x) = starsRef (view a) /\
                       speedRef (view x) = speedRef (view a))).
    - intros x t _ (M & H) _. unfold fireApp. cbn [ctl view].
      rewrite mounted_fire. split; [assumption|].
      assert (E : phase (fire t (ctl x)) = phase (ctl x)).
      { rewrite phase_fire, M. now destruct (phaseOf (callback t)). }
      rewrite E. now rewrite (proj2 (phase_eqb_eq _ _) eq_refl).
    - intros x t (M & H). cbn [ctl view]. rewrite idle_eq. cbn [mounted].
      split; assumption.
    - intros x e _ (M & F & L & C & P & S & V) He.
      destruct e as [d| |w' h'|v| |]; cbn [step ctl view].
      + now destruct (He d).
      + unfold frame. rewrite F. repeat split; assumption.
      + destruct (view x) as [stars sp afr cv iw ih c2d rl fr nf rc pt cl].
        cbn in *. subst. cbn. repeat split; assumption.
      + rewrite change_eq. unfold formRendered. rewrite M. cbn. repeat split; assumption.
      + rewrite click_eq. unfold formRendered. rewrite M. cbn. repeat split; assumption.
      + rewrite M. repeat split; assumption.
    - apply Good_run, Good_mount.
    - repeat split; assumption. }
  destruct Hinv as (_ & H). exact H.
Qed.

End Teardown.

Lemma renderer_stopped_after_unmount_witness :
  let a := run (fun _ => 1 # 2) [Elapse 6000; Frame; Unmount] (mount 800 600 true) in
  let a' := run (fun _ => 1 # 2) [Elapse 4000; Frame; Resize 100 100; Frame] a in
  frameRequest (view a') = None /\ painted (view a') = painted (view a).
Proof.
  destruct (renderer_stopped_after_unmount (fun _ => 1 # 2) 800 600 true
              [Elapse 6000; Frame; Unmount]
              [Elapse 4000; Frame; Resize 100 100; Frame])
    as (H1 & _ & _ & H2 & _).
  - vm_compute. reflexivity.
  - split; assumption.
Defined.


(** ** Invariants of the speed and of the stars *)

Section FlightInvariants.

Variable random : nat -> Q.

Lemma animate_painted c r :
  painted (animate random c r)
  = painted r
    ++ FillRect 0.25 (px (fst (canvasSize r))) (px (snd (canvasSize r)))
    :: snd (fst (stepStars random (ease (speedRef r) (targetSpeedRef c))
                   (px (fst (canvasSize r))) (px (snd (canvasSize r)))
                   (px (fst (canvasSize r)) / 2) (px (snd (canvasSize r)) / 2)
                   (randomCalls r) (starsRef r))).
Proof.
  destruct r as [stars sp afr cv iw ih c2d rl fr nf rc pt cl]. unfold animate.
  cbn [speedRef randomCalls starsRef painted].
  match goal with
  | |- context [stepStars random ?s ?w ?h ?cx ?cy ?k ?l] =>
      destruct (stepStars random s w h cx cy k l) as [[stars' cmds] k']
  end.
  reflexivity.
Qed.

Lemma painted_registerCleanup r : painted (registerCleanup r) = painted r.
Proof. now destruct r. Qed.

Lemma painted_addResizeListener on r : painted (addResizeListener on r) = painted r.
Proof. now destruct r. Qed.

Lemma painted_setCanvasSize r : painted (setCanvasSize r) = painted r.
Proof. now destruct r. Qed.

Lemma painted_commitCanvas c r : painted (commitCanvas c r) = painted r.
Proof. now destruct r. Qed.

Lemma painted_runRendererCleanup r : painted (runRendererCleanup r) = painted r.
Proof. now destruct r. Qed.

Lemma painted_initStars r : painted (initStars random r) = painted r.
Proof. now destruct r. Qed.

(** [W] relates the eased speed, the stars and the commands painted so
    far; it is kept by a frame and by the allocation of the stars. *)
Variable W : Q -> list Star.t -> list DrawCmd -> Prop.

Hypothesis W_animate :
  forall sp tg (w h : N) k stars pt,
    isTarget tg -> W sp stars pt ->
    let result := stepStars random (ease sp tg) (px w) (px h) (px w / 2) (px h / 2)
                    k stars in
    W (ease sp tg) (fst (fst result))
      (pt ++ FillRect 0.25 (px w) (px h) :: snd (fst result)).

Hypothesis W_initStars :
  forall sp k pt, W sp [] pt -> W sp (initStarsFrom random NUM_STARS k) pt.

Lemma W_animate_view c r : isTarget (targetSpeedRef c) -> Kept W r -> Kept W (animate random c r).
Proof.
  intros Ht Hw. unfold Kept. rewrite animate_speed, animate_stars, animate_painted.
  now apply W_animate.
Qed.

Lemma V_same r r' :
  speedRef r' = speedRef r /\ starsRef r' = starsRef r ->
  painted r' = painted r -> Kept W r -> Kept W r'.
Proof. intros [E1 E2] E3 H. unfold Kept. now rewrite E1, E2, E3. Qed.

Lemma W_rerender c r : isTarget (targetSpeedRef c) -> Kept W r -> Kept W (rerender random c r).
Proof.
  intros Ht Hw. unfold rerender.
  pose proof (V_same _ _ (flight_commitCanvas c r) (painted_commitCanvas c r) Hw) as H1.
  set (r1 := commitCanvas c r) in *.
  assert (H2 : Kept W (if rendererCleanup r1 then runRendererCleanup r1 else r1)).
  { destruct (rendererCleanup r1); [|exact H1].
    exact (V_same _ _ (flight_runRendererCleanup r1) (painted_runRendererCleanup r1) H1). }
  set (r2 := if rendererCleanup r1 then runRendererCleanup r1 else r1) in *.
  unfold rendererEffect.
  destruct (phase c); try exact H2;
    (destruct (canvas r2); [|exact H2]);
    (destruct (negb (context2d r2)); [exact H2|]);
    (apply (V_same _ _ (flight_registerCleanup _) (painted_registerCleanup _)));
    apply W_animate_view; try assumption;
    pose proof (V_same _ _ (flight_setCanvasSize r2) (painted_setCanvasSize r2) H2) as H3;
    pose proof (V_same _ _ (flight_addResizeListener true _)
                  (painted_addResizeListener true _) H3) as H4;
    (destruct (starsRef (addResizeListener true (setCanvasSize r2))) eqn:E;
       [ unfold Kept in *;
         destruct (flight_initStars random (addResizeListener true (setCanvasSize r2)))
           as [-> ->];
         rewrite painted_initStars; apply W_initStars; now rewrite <- E
       | exact H4 ]).
Qed.

Lemma isTarget_fire t c : isTarget (targetSpeedRef c) -> isTarget (targetSpeedRef (fire t c)).
Proof.
  intro H. rewrite targetSpeedRef_fire. unfold isTarget.
  destruct (callback t); auto.
Qed.

Lemma flight_run es a : Good a -> KeptApp W a -> KeptApp W (run random es a).
Proof.
  apply run_invariant.
  - intros x t _ [Ht Hw] _. unfold KeptApp, fireApp. cbn [ctl view].
    pose proof (isTarget_fire t _ Ht) as Ht'. split; [assumption|].
    destruct (phase_eqb _ _); [assumption|]. now apply W_rerender.
  - intros x t [Ht Hw]. unfold KeptApp. cbn [ctl view]. now rewrite idle_eq.
  - intros x e _ [Ht Hw] He. unfold KeptApp.
    destruct e as [d| |w' h'|v| |]; cbn [step ctl view].
    + now destruct (He d).
    + split; [assumption|]. unfold frame.
      destruct (frameRequest (view x)); [|assumption]. now apply W_animate_view.
    + split; [assumption|].
      destruct (view x) as [stars sp afr cv iw ih c2d rl fr nf rc pt cl].
      cbn in *. now destruct rl.
    + rewrite change_eq. destruct (_ && _); [|split; assumption].
      cbn [targetSpeedRef]. split; [|assumption].
      unfold isTarget. destruct (Nat.ltb _ _); auto.
    + rewrite click_eq. destruct (_ && _); [|split; assumption].
      cbn [targetSpeedRef]. split; [|assumption]. unfold isTarget. auto.
    + destruct (mounted (ctl x)); [|split; assumption]. cbn [ctl view].
      rewrite unmountControl_eq. cbn [targetSpeedRef]. split; [assumption|].
      destruct (view x) as [stars sp afr cv iw ih c2d rl fr nf rc pt cl].
      cbn in *. now destruct cl.
Qed.

End FlightInvariants.

Lemma ease_between speed target :
  isTarget target -> INITIAL_SPEED <= speed -> speed < BURST_SPEED ->
  INITIAL_SPEED <= ease speed target /\ ease speed target < BURST_SPEED.
Proof.
  unfold isTarget, ease, INITIAL_SPEED, BURST_SPEED.
  intros [-> | [-> | [-> | ->]]] H1 H2;
    unfold IDLE_SPEED, THINKING_SPEED, BURST_SPEED, SUSTAINED_SPEED; split; lra.
Qed.

Lemma drawStar_lateral w h cx cy star : lateralOK star -> lateralOK (fst (drawStar w h cx cy star)).
Proof.
  intros (Hx & Hy & Hp). unfold drawStar. destruct (project star cx cy) as [sx sy].
  destruct (offSurface w h sx sy); cbn [fst]; [exact (conj Hx (conj Hy Hp))|].
  unfold lateralOK. cbn [Star.x Star.y Star.prevX Star.prevY].
  split; [exact Hx|]. split; [exact Hy|]. split; discriminate.
Qed.

Lemma advanceStar_lateral random speed k star :
  unitRange random -> lateralOK star -> lateralOK (fst (advanceStar random speed k star)).
Proof.
  intros Hr (Hx & Hy & Hp). unfold advanceStar.
  destruct (Qleb _ _); cbn [fst]; unfold lateralOK; cbn [Star.x Star.y Star.prevX Star.prevY].
  - split; [apply randomCoord_range, Hr|]. split; [apply randomCoord_range, Hr|]. tauto.
  - tauto.
Qed.

Lemma stepStars_lateral random speed w h cx cy stars :
  unitRange random ->
  forall k, Forall lateralOK stars ->
  Forall lateralOK (fst (fst (stepStars random speed w h cx cy k stars))).
Proof.
  intro Hr. induction stars as [|s rest IH]; intros k Hf; [constructor|].
  inversion Hf as [|? ? Hs Hrest]; subst. cbn [stepStars].
  rewrite stepStar_eq.
  specialize (IH (snd (advanceStar random speed k s)) Hrest).
  destruct (stepStars random speed w h cx cy (snd (advanceStar random speed k s)) rest)
    as [[rest' cmds'] k''].
  cbn [fst snd] in *. constructor; [|assumption].
  now apply drawStar_lateral, advanceStar_lateral.
Qed.

Lemma initStarsFrom_lateral random n :
  unitRange random -> forall k, Forall lateralOK (initStarsFrom random n k).
Proof.
  intro Hr. induction n as [|n IH]; intro k; cbn [initStarsFrom]; constructor; [|apply IH].
  unfold initStar, lateralOK. cbn [Star.x Star.y Star.prevX Star.prevY].
  split; [apply randomCoord_range, Hr|]. split; [apply randomCoord_range, Hr|]. tauto.
Qed.

Lemma mount_flight w h has2d :
  isTarget (targetSpeedRef (ctl (mount w h has2d))) /\
  speedRef (view (mount w h has2d)) = INITIAL_SPEED /\
  starsRef (view (mount w h has2d)) = [].
Proof. unfold isTarget. cbn. auto. Qed.

(** The speed of the flight never leaves the range its constants span: the
    target speed is at every moment one of the four values the component
    stores (0.002, 0.003, 0.018, 0.006), and the eased speed, which starts
    at 0.001, stays from 0.001 (included) to 0.018 (excluded) whatever the
    user does and however many frames are painted. *)
Theorem speed_stays_between_initial_and_burst (random : nat -> Q) (w h : N)
    (has2d : bool) (es : list Event) :
  let a := run random es (mount w h has2d) in
  isTarget (targetSpeedRef (ctl a)) /\
  INITIAL_SPEED <= speedRef (view a) /\ speedRef (view a) < BURST_SPEED.
Proof.
  intro a. subst a.
  destruct (mount_flight w h has2d) as (Ht & Hs & _).
  apply (flight_run random
           (fun sp _ _ => INITIAL_SPEED <= sp /\ sp < BURST_SPEED)).
  - intros sp tg _ _ _ _ _ Htg [H1 H2] _. now apply ease_between.
  - intros sp k _ H. exact H.
  - apply Good_mount.
  - split; [exact Ht|]. unfold Kept. rewrite Hs. unfold INITIAL_SPEED, BURST_SPEED. split; lra.
Qed.

(** With [Math.random()] in its range, the star field is at every moment
    either not yet allocated or made of exactly 100 stars, each with both
    lateral coordinates from -1 (included) to 1 (excluded) and with its
    previous projection stored whole or not at all. *)
Theorem star_field_shape (random : nat -> Q) (w h : N) (has2d : bool)
    (es : list Event) :
  unitRange random ->
  let a := run random es (mount w h has2d) in
  (starsRef (view a) = [] \/ List.length (starsRef (view a)) = NUM_STARS) /\
  Forall lateralOK (starsRef (view a)).
Proof.
  intros Hr a. subst a. split.
  - pose proof (Rendering_run random w h has2d es) as R. unfold Rendering in R.
    set (a := run random es (mount w h has2d)) in *.
    destruct (phase (ctl a)).
    1,2: left; apply R.
    all: destruct (mounted (ctl a));
      [ destruct (context2d (view a)); [right; apply R | left; apply R]
      | apply R ].
  - destruct (mount_flight w h has2d) as (Ht & _ & Hs).
    apply (flight_run random (fun _ stars _ => Forall lateralOK stars)).
    + intros sp tg cw ch k stars _ _ H result. now apply stepStars_lateral.
    + intros sp k _ _. now apply initStarsFrom_lateral.
    + apply Good_mount.
    + split; [exact Ht|]. unfold Kept. rewrite Hs. constructor.
Qed.

Lemma star_field_shape_witness :
  let a := run (fun _ => 1 # 2) [Elapse 6000; Frame; Frame] (mount 800 600 true) in
  (starsRef (view a) = [] \/ List.length (starsRef (view a)) = NUM_STARS) /\
  Forall lateralOK (starsRef (view a)).
Proof.
  apply (star_field_shape (fun _ => 1 # 2) 800 600 true [Elapse 6000; Frame; Frame]).
  intro k. cbn. split; lra.
Defined.

Lemma stars_radiate_witness :
  let star := Star.mk 0.45 0 0.3 (Some 900) (Some 500) in
  let moved := fst (advanceStar (fun _ => 1 # 2) 0.002 0 star) in
  let before := project star (px 1000 / 2) (px 1000 / 2) in
  let after := project moved (px 1000 / 2) (px 1000 / 2) in
  (0 <= Star.x star -> px 1000 / 2 <= fst before /\ fst before <= fst after) /\
  (Star.x star <= 0 -> fst after <= fst before /\ fst before <= px 1000 / 2) /\
  (0 <= Star.y star -> px 1000 / 2 <= snd before /\ snd before <= snd after) /\
  (Star.y star <= 0 -> snd after <= snd before /\ snd before <= px 1000 / 2).
Proof.
  apply (stars_radiate (fun _ => 1 # 2) 0.002 1000 1000 0
           (Star.mk 0.45 0 0.3 (Some 900) (Some 500)));
    vm_compute; first [discriminate | reflexivity].
Defined.

Lemma skipped_star_stays_skipped_witness :
  let star := Star.mk 0.45 0 0.3 (Some 900) (Some 500) in
  let moved := fst (advanceStar (fun _ => 1 # 2) 0.002 0 star) in
  let after := project moved (px 1000 / 2) (px 1000 / 2) in
  offSurface (px 1000) (px 1000) (fst after) (snd after) = true.
Proof.
  apply (skipped_star_stays_skipped (fun _ => 1 # 2) 0.002 1000 1000 0
           (Star.mk 0.45 0 0.3 (Some 900) (Some 500)));
    vm_compute; first [discriminate | reflexivity].
Defined.

(** ** What is painted *)

Lemma star_paint_ranges star :
  depthOK star ->
  (0 <= starSize star /\ starSize star < 2) /\
  (0 <= starOpacity star /\ starOpacity star <= 1).
Proof.
  intros [Hlo Hhi]. unfold MIN_Z, MAX_Z in *.
  rewrite starSize_eq, starOpacity_eq.
  destruct (Q.max_spec 0 ((1 - Star.z star * (2 # 5)) * 2)) as [[H1 ->]|[H1 ->]];
  destruct (Q.min_spec 1 ((1 - Star.z star * (2 # 5)) * (3 # 2))) as [[H2 ->]|[H2 ->]];
    repeat split; lra.
Qed.

Lemma trail_paintOK star sx sy : depthOK star -> Forall paintOK (trail star sx sy).
Proof.
  intro Hd. destruct (star_paint_ranges star Hd) as [[S1 S2] [O1 O2]].
  unfold trail. destruct (Star.prevX star); [|constructor].
  destruct (Star.prevY star); [|constructor].
  destruct (Qltb (Star.z star) 0.5); constructor; [|constructor].
  cbn [paintOK]. repeat split; lra.
Qed.

Lemma drawStar_paintOK w h cx cy star :
  depthOK star -> Forall paintOK (snd (drawStar w h cx cy star)).
Proof.
  intro Hd. unfold drawStar. destruct (project star cx cy) as [sx sy].
  destruct (offSurface w h sx sy); cbn [snd]; [constructor|].
  apply Forall_app. split; [now apply trail_paintOK|].
  constructor; [|constructor]. cbn [paintOK]. now apply star_paint_ranges.
Qed.

Lemma stepStars_paintOK random speed w h cx cy stars :
  0 <= speed -> Forall (fun s => Star.z s <= MAX_Z) stars ->
  forall k, Forall paintOK (snd (fst (stepStars random speed w h cx cy k stars))).
Proof.
  intros Hs Hz. induction Hz as [|star stars Hstar _ IH]; intro k; [constructor|].
  cbn [stepStars]. rewrite stepStar_eq.
  specialize (IH (snd (advanceStar random speed k star))).
  destruct (stepStars random speed w h cx cy (snd (advanceStar random speed k star)) stars)
    as [[rest' cmds'] k''].
  cbn [fst snd] in *. apply Forall_app. split; [|assumption].
  now apply drawStar_paintOK, advanceStar_depth.
Qed.

Lemma isTarget_nonneg tg : isTarget tg -> 0 <= tg.
Proof.
  intros [-> | [-> | [-> | ->]]];
    unfold IDLE_SPEED, THINKING_SPEED, BURST_SPEED, SUSTAINED_SPEED; lra.
Qed.

(** With [Math.random()] in its range, every command the component ever
    sends to the canvas has its numbers in range: each frame starts with a
    veil of alpha 0.25 over a surface whose size is not negative, every
    disc has a radius from 0 (included) to 2 (excluded), so that [arc] is
    never given a negative radius, and an alpha from 0 to 1, and every trail
    has an alpha from 0 to 0.6 and a width from 0 (included) to 1
    (excluded). *)
Theorem painted_commands_in_range (random : nat -> Q) (w h : N) (has2d : bool)
    (es : list Event) :
  unitRange random ->
  Forall paintOK (painted (view (run random es (mount w h has2d)))).
Proof.
  intro Hr.
  destruct (mount_flight w h has2d) as (Ht & Hs & Hz).
  apply (flight_run random
           (fun sp stars pt =>
              0 <= sp /\ Forall (fun s => Star.z s <= MAX_Z) stars /\ Forall paintOK pt)).
  - intros sp tg cw ch k stars pt Htg (H1 & H2 & H3) result.
    pose proof (ease_nonneg _ _ H1 (isTarget_nonneg _ Htg)) as He.
    split; [exact He|]. split.
    + eapply Forall_impl; [apply depthOK_le|]. now apply stepStars_depth.
    + apply Forall_app. split; [exact H3|]. constructor.
      * cbn [paintOK]. split; [reflexivity|]. split; apply px_nonneg.
      * now apply stepStars_paintOK.
  - intros sp k pt (H1 & _ & H3). split; [exact H1|]. split; [|exact H3].
    now apply initStarsFrom_depth.
  - apply Good_mount.
  - split; [exact Ht|]. unfold Kept. rewrite Hs, Hz. unfold INITIAL_SPEED.
    split; [lra|]. split; constructor.
Qed.

Lemma painted_commands_in_range_witness :
  Forall paintOK
    (painted (view (run (fun _ => 1 # 2) [Elapse 6000; Frame] (mount 800 600 true)))).
Proof.
  apply (painted_commands_in_range (fun _ => 1 # 2) 800 600 true [Elapse 6000; Frame]).
  intro k. cbn. split; lra.
Defined.

(** With [Math.random()] in its range, a star that a frame respawns is
    painted in that same frame, never skipped: it lands within 50 px of
    the canvas, no trail is drawn, exactly one disc is sent to the canvas,
    of radius 0 and alpha 0, at the projection of the new position, and
    that projection is stored as the star's previous projection.  The star
    takes two numbers from [Math.random()]. *)
Theorem respawned_star_is_painted_invisible (random : nat -> Q) (speed : Q)
    (w h : N) (k : nat) (star : Star.t) :
  unitRange random ->
  Star.z star - speed <= MIN_Z ->
  let fresh := Star.mk (randomCoord random k) (randomCoord random (1 + k))
                 MAX_Z None None in
  let result := stepStar random speed (px w) (px h) (px w / 2) (px h / 2) k star in
  let sx := fst (project fresh (px w / 2) (px h / 2)) in
  let sy := snd (project fresh (px w / 2) (px h / 2)) in
  offSurface (px w) (px h) sx sy = false /\
  snd (fst result) = [FillArc sx sy (starSize fresh) (starOpacity fresh)] /\
  starSize fresh == 0 /\ starOpacity fresh == 0 /\
  fst (fst result) = Star.mk (Star.x fresh) (Star.y fresh) MAX_Z (Some sx) (Some sy) /\
  snd result = (2 + k)%nat.
Proof.
  intros Hr Hz fresh result sx sy.
  pose proof (respawned_on_surface random w h k Hr) as Hon. cbv zeta in Hon.
  fold fresh in Hon. fold sx sy in Hon.
  split; [exact Hon|].
  unfold result. rewrite stepStar_eq, advanceStar_respawn by assumption.
  cbn [fst snd]. fold fresh. unfold drawStar.
  rewrite (surjective_pairing (project fresh (px w / 2) (px h / 2))).
  fold sx sy. rewrite Hon. cbn [fst snd].
  repeat split; reflexivity.
Qed.

Lemma respawned_star_is_painted_invisible_witness :
  let random := fun _ : nat => 1 # 2 in
  let star := Star.mk 0.45 0 0.002 (Some 900) (Some 500) in
  let fresh := Star.mk (randomCoord random 0) (randomCoord random 1) MAX_Z None None in
  let result := stepStar random 0.002 (px 1000) (px 1000) (px 1000 / 2) (px 1000 / 2)
                  0 star in
  let sx := fst (project fresh (px 1000 / 2) (px 1000 / 2)) in
  let sy := snd (project fresh (px 1000 / 2) (px 1000 / 2)) in
  offSurface (px 1000) (px 1000) sx sy = false /\
  snd (fst result) = [FillArc sx sy (starSize fresh) (starOpacity fresh)] /\
  starSize fresh == 0 /\ starOpacity fresh == 0 /\
  fst (fst result) = Star.mk (Star.x fresh) (Star.y fresh) MAX_Z (Some sx) (Some sy) /\
  snd result = 2%nat.
Proof.
  apply (respawned_star_is_painted_invisible (fun _ => 1 # 2) 0.002 1000 1000 0
           (Star.mk 0.45 0 0.002 (Some 900) (Some 500))).
  - intro k. cbn. split; lra.
  - vm_compute. discriminate.
Defined.

(** ** The form *)

(** The button is disabled exactly when the text is empty or made of white
    space only, white space being what [String.prototype.trim] strips, the
    no-break space and the other Unicode spaces included; and a press is
    then lost: a click while the form is not shown, or while the text has
    no visible character, changes nothing, in particular not the target
    speed, and arms no timer. *)
Theorem button_needs_visible_text (random : nat -> Q) (a : App) :
  (buttonDisabled (ctl a) = true <-> allWhiteSpace (inputValue (ctl a)) = true) /\
  (formRendered (ctl a) = false \/ allWhiteSpace (inputValue (ctl a)) = true ->
   step random a Click = a) /\
  (formRendered (ctl a) = true -> allWhiteSpace (inputValue (ctl a)) = false ->
   let c := ctl (step random a Click) in
   isSimulating c = true /\ targetSpeedRef c = BURST_SPEED /\
   List.length (timers c) = S (List.length (timers (ctl a)))).
Proof.
  assert (Hiff : buttonDisabled (ctl a) = true
                 <-> allWhiteSpace (inputValue (ctl a)) = true).
  { unfold buttonDisabled, falsy. split.
    - intro H. apply trim_empty. now apply String.eqb_eq.
    - intro H. rewrite trim_allWhiteSpace by assumption. reflexivity. }
  split; [exact Hiff|]. split.
  - intro H. destruct a as [c r]. cbn [step ctl view] in *. f_equal.
    rewrite click_eq. destruct H as [-> | H]; [reflexivity|].
    apply Hiff in H. rewrite H. now rewrite andb_false_r.
  - intros Hf Hw c. subst c. cbn [step ctl]. rewrite click_eq, Hf.
    destruct (buttonDisabled (ctl a)) eqn:E.
    + pose proof (proj1 Hiff eq_refl). congruence.
    + cbn [andb negb isSimulating targetSpeedRef timers].
      repeat split. rewrite length_app. cbn [List.length]. lia.
Qed.

Lemma button_needs_visible_text_witness :
  let a := run (fun _ => 1 # 2) [Elapse 9000; Change noBreakSpace] (mount 800 600 true) in
  step (fun _ => 1 # 2) a Click = a.
Proof.
  apply (button_needs_visible_text (fun _ => 1 # 2)
           (run (fun _ => 1 # 2) [Elapse 9000; Change noBreakSpace] (mount 800 600 true))).
  right. reflexivity.
Defined.

Lemma isSimulating_fire t c : isSimulating (fire t c) = isSimulating c.
Proof. ctl_cases. Qed.

Lemma isSimulating_elapseControl fuel target c :
  isSimulating (elapseControl fuel target c) = isSimulating c.
Proof.
  revert c. induction fuel as [|fuel IH]; intro c; cbn [elapseControl].
  - now rewrite idle_eq.
  - destruct (earliest (timers c)) as [t|]; [|now rewrite idle_eq].
    destruct (due t <=? target)%N; [|now rewrite idle_eq].
    now rewrite IH, isSimulating_fire.
Qed.

Lemma isSimulating_stepControl c e :
  isSimulating (stepControl c e)
  = match e with
    | Click => isSimulating c || (formRendered c && negb (buttonDisabled c))
    | _ => isSimulating c
    end.
Proof.
  destruct e as [d| |w h|v| |]; cbn [stepControl]; try reflexivity.
  - apply isSimulating_elapseControl.
  - rewrite change_eq. now destruct (_ && _).
  - rewrite click_eq. destruct (_ && _); cbn [isSimulating];
      [now rewrite orb_true_r | now rewrite orb_false_r].
  - destruct (mounted c); [|reflexivity]. now rewrite unmountControl_eq.
Qed.

Lemma isSimulating_kept es c :
  isSimulating c = true -> isSimulating (runControl es c) = true.
Proof.
  revert c. induction es as [|e es IH]; intros c H; [exact H|].
  cbn [runControl fold_left]. apply IH. rewrite isSimulating_stepControl.
  destruct e; try assumption. now rewrite H.
Qed.

Lemma isSimulating_needs_click es c :
  ~ In Click es -> isSimulating (runControl es c) = isSimulating c.
Proof.
  revert c. induction es as [|e es IH]; intros c H; [reflexivity|].
  cbn [runControl fold_left]. rewrite IH by (intro; apply H; now right).
  rewrite isSimulating_stepControl.
  destruct e; try reflexivity. exfalso. apply H. now left.
Qed.

Section Simulating.

Variable random : nat -> Q.

Lemma simulating_in_ready es a :
  Good a ->
  (isSimulating (ctl a) = true -> phase (ctl a) = ready) ->
  isSimulating (ctl (run random es a)) = true -> phase (ctl (run random es a)) = ready.
Proof.
  apply (run_invariant random
           (fun a => isSimulating (ctl a) = true -> phase (ctl a) = ready)).
  - intros x t Hs Hp He. rewrite ctl_fireApp, isSimulating_fire. intro H.
    pose proof (fire_rank _ _ Hs He) as Hr. rewrite (Hp H) in Hr.
    destruct (phase (fire t (ctl x))); cbn in Hr; try lia. reflexivity.
  - intros x t Hp. cbn [ctl]. now rewrite idle_eq.
  - intros x e _ Hp He. rewrite ctl_step.
    destruct e as [d| |w' h'|v| |]; cbn [stepControl]; try exact Hp.
    + now destruct (He d).
    + rewrite change_eq. destruct (_ && _); [|exact Hp]. exact Hp.
    + rewrite click_eq. destruct (formRendered (ctl x)) eqn:Ef; [|exact Hp].
      destruct (negb _); [|exact Hp]. cbn [andb isSimulating phase]. intros _.
      unfold formRendered in Ef. apply andb_true_iff in Ef. now apply phase_eqb_eq.
    + destruct (mounted (ctl x)); [|exact Hp]. rewrite unmountControl_eq. exact Hp.
Qed.

(** The simulation flag is raised by an accepted press of the button and by
    nothing else, and nothing lowers it: in a session without a click it is
    false; when it is true the phase is [ready]; and once true it stays
    true through whatever follows, the unmount included. *)
Theorem simulation_flag_raised_once (w h : N) (has2d : bool) (es later : list Event) :
  let a := run random es (mount w h has2d) in
  (~ In Click es -> isSimulating (ctl a) = false) /\
  (isSimulating (ctl a) = true ->
   phase (ctl a) = ready /\ isSimulating (ctl (run random later a)) = true).
Proof.
  intro a. subst a. split.
  - intro H. rewrite ctl_run, isSimulating_needs_click by assumption. reflexivity.
  - intro H. split.
    + revert H. apply simulating_in_ready; [apply Good_mount|]. discriminate.
    + rewrite ctl_run. now apply isSimulating_kept.
Qed.

End Simulating.

Lemma simulation_flag_raised_once_witness :
  let a := run (fun _ => 1 # 2) [Elapse 9000; Change "x"%string; Click]
             (mount 800 600 true) in
  phase (ctl a) = ready /\
  isSimulating (ctl (run (fun _ => 1 # 2) [Change EmptyString; Elapse 5000; Unmount] a))
  = true.
Proof.
  apply (simulation_flag_raised_once (fun _ => 1 # 2) 800 600 true
           [Elapse 9000; Change "x"%string; Click]
           [Change EmptyString; Elapse 5000; Unmount]).
  reflexivity.
Defined.

(** ** Two presses *)

Lemma click_accepted c :
  formRendered c = true -> buttonDisabled c = false ->
  click c
  = mkControl (mounted c) (phase c) (breathOpacity c) (isVisible c)
      (inputValue c) true BURST_SPEED (now c) (timers c ++ [burstTimer c])
      (S (nextHandle c)) (silenceTimer c) (fired c) (phaseLog c).
Proof. intros Hf Hd. now rewrite click_eq, Hf, Hd. Qed.

Lemma Bursting_pressed c :
  Forall targetSafe (timers c) -> notOverdue c -> freshHandles c ->
  formRendered c = true -> buttonDisabled c = false ->
  Bursting (burstTimer c) (click c).
Proof.
  intros Hsafe Hno Hfresh Hf Hd. rewrite (click_accepted c Hf Hd).
  unfold Bursting, notOverdue in *. cbn [timers now nextHandle].
  split; [apply Forall_app; split; [assumption|]|].
  { apply Forall_cons; [now right|apply Forall_nil]. }
  split; [apply Forall_app; split; [assumption|]|].
  { apply Forall_cons; [cbn; lia|apply Forall_nil]. }
  left. split; [apply in_or_app; right; now left|].
  split; [|cbn; lia].
  apply Forall_app. split.
  - eapply Forall_impl; [|exact Hfresh]. cbn. intros; lia.
  - apply Forall_cons; [reflexivity|apply Forall_nil].
Qed.

Lemma Bursting_pressed_again b c :
  Bursting b c -> (now c < due b)%N ->
  formRendered c = true -> buttonDisabled c = false ->
  Bursting b (click c).
Proof.
  intros (Hsafe & Hno & Hcase) Hearly Hf Hd. rewrite (click_accepted c Hf Hd).
  unfold Bursting, notOverdue in *. cbn [timers now nextHandle targetSpeedRef fired].
  split; [apply Forall_app; split; [assumption|]|].
  { apply Forall_cons; [now right|apply Forall_nil]. }
  split; [apply Forall_app; split; [assumption|]|].
  { apply Forall_cons; [cbn; lia|apply Forall_nil]. }
  destruct Hcase as [(Hin & Huniq & Hnh)|(_ & _ & Hd')]; [|lia].
  left. split; [apply in_or_app; now left|].
  split; [|lia]. apply Forall_app. split; [assumption|].
  apply Forall_cons; [|apply Forall_nil]. cbn [burstTimer handle]. lia.
Qed.

Lemma Pressed_fire b v c t :
  callback b = BurstTimer ->
  Pressed b v c -> earliest (timers c) = Some t -> Pressed b v (fire t c).
Proof.
  intros Hb (HB & Hm & Hp & Hv) He.
  split; [now apply Bursting_fire|].
  rewrite mounted_fire, phase_fire, inputValue_fire.
  repeat split; try assumption.
  destruct HB as (Hsafe & _). rewrite Forall_forall in Hsafe.
  destruct (Hsafe t (earliest_In _ _ He)) as [-> | ->]; exact Hp.
Qed.

Lemma Pressed_idle b v c t :
  Pressed b v c -> Forall (fun tm => (t < due tm)%N) (timers c) -> Pressed b v (idle t c).
Proof.
  intros (HB & Hm & Hp & Hv) Hs. split; [now apply Bursting_idle|].
  now rewrite idle_eq.
Qed.

Section SecondPress.

Variable random : nat -> Q.

(** A second press does not restart the burst.  The button is pressed, and
    pressed again before the 3500 ms of the first press are over, with only
    frames, resizes and waits around the two presses.  The second press
    stores the burst value again, but the timer of the first press still
    runs 3500 ms after the first press and stores the sustained value: from
    then on the target speed is the sustained value, although fewer than
    3500 ms have passed since the second press, whose own timer is still
    pending until 3500 ms after it. *)
Theorem second_press_does_not_restart_the_burst (w h : N) (has2d : bool)
    (es0 es1 es2 : list Event) :
  let a := run random es0 (mount w h has2d) in
  let a1 := run random es1 (step random a Click) in
  let a2 := run random es2 (step random a1 Click) in
  formRendered (ctl a) = true ->
  buttonDisabled (ctl a) = false ->
  Forall passive es1 -> Forall passive es2 ->
  (now (ctl a1) < now (ctl a) + 3500)%N ->
  (now (ctl a) + 3500 <= now (ctl a2))%N ->
  targetSpeedRef (ctl (step random a1 Click)) = BURST_SPEED /\
  targetSpeedRef (ctl a2) = SUSTAINED_SPEED /\
  In ((now (ctl a) + 3500)%N, BurstTimer) (fired (ctl a2)) /\
  ((now (ctl a2) < now (ctl a1) + 3500)%N ->
   In (burstTimer (ctl a1)) (timers (ctl a2))).
Proof.
  intros a a1 a2 Hf Hd Hes1 Hes2 Hearly Hlate.
  assert (Ga : Good a) by (apply Good_run, Good_mount).
  assert (Ga1 : Good a1) by (apply Good_run, Good_step, Ga).
  assert (Ga2 : Good a2) by (apply Good_run, Good_step, Ga1).
  assert (Fa : freshHandles (ctl a)).
  { unfold a. rewrite ctl_run. apply freshHandles_run.
    apply Forall_cons; [cbn; lia|apply Forall_nil]. }
  assert (Fa1 : freshHandles (ctl a1)).
  { unfold a1. rewrite ctl_run. apply freshHandles_run.
    rewrite ctl_step. now apply freshHandles_step. }
  destruct (ready_timers_safe (ctl a) (proj1 Ga) Hf) as [Hsafe Hno].
  set (b := burstTimer (ctl a)).
  assert (Hb : callback b = BurstTimer) by reflexivity.
  pose proof Hf as Hf'. unfold formRendered in Hf'. apply andb_true_iff in Hf'.
  destruct Hf' as [Hm Hp]. apply phase_eqb_eq in Hp.
  (* after the first press and what follows it *)
  assert (P1 : Pressed b (inputValue (ctl a)) (ctl a1)).
  { unfold a1. rewrite ctl_run. apply passive_run; try assumption.
    - intros; now apply Pressed_fire.
    - intros; now apply Pressed_idle.
    - rewrite ctl_step. cbn [stepControl].
      split; [now apply Bursting_pressed|].
      rewrite (click_accepted _ Hf Hd). cbn [mounted phase inputValue]. auto. }
  destruct P1 as (B1 & Hm1 & Hp1 & Hv1).
  assert (Hf1 : formRendered (ctl a1) = true).
  { unfold formRendered. rewrite Hm1, Hp1. reflexivity. }
  assert (Hd1 : buttonDisabled (ctl a1) = false).
  { unfold buttonDisabled in *. now rewrite Hv1. }
  destruct (ready_timers_safe (ctl a1) (proj1 Ga1) Hf1) as [Hsafe1 Hno1].
  (* the second press keeps the first timer pending *)
  assert (B2 : Bursting b (ctl a2)).
  { unfold a2. rewrite ctl_run. apply passive_run; try assumption.
    - intros; now apply Bursting_fire.
    - intros; now apply Bursting_idle.
    - rewrite ctl_step. cbn [stepControl]. now apply Bursting_pressed_again. }
  (* and arms its own *)
  set (b' := burstTimer (ctl a1)).
  assert (Hb' : callback b' = BurstTimer) by reflexivity.
  assert (B2' : Bursting b' (ctl a2)).
  { unfold a2. rewrite ctl_run. apply passive_run; try assumption.
    - intros; now apply Bursting_fire.
    - intros; now apply Bursting_idle.
    - rewrite ctl_step. cbn [stepControl]. now apply Bursting_pressed. }
  split.
  { rewrite ctl_step. cbn [stepControl]. now rewrite (click_accepted _ Hf1 Hd1). }
  assert (H2 : targetSpeedRef (ctl a2) = SUSTAINED_SPEED /\
               In ((now (ctl a) + 3500)%N, BurstTimer) (fired (ctl a2))).
  { destruct B2 as (_ & _ & [(Hin & _)|(Ht & Hfi & _)]).
    - destruct Ga2 as [_ Hq]. unfold settled in Hq. rewrite Forall_forall in Hq.
      specialize (Hq b Hin). cbn [b burstTimer due] in Hq. lia.
    - split; assumption. }
  destruct H2 as [H2 H3]. split; [exact H2|]. split; [exact H3|].
  intro Hpending. destruct B2' as (_ & _ & [(Hin & _)|(_ & _ & Hdue)]).
  - exact Hin.
  - cbn [b' burstTimer due] in Hdue. lia.
Qed.

End SecondPress.

Lemma second_press_does_not_restart_the_burst_witness :
  let random := fun _ : nat => 1 # 2 in
  let a := run random [Elapse 9000; Change "x"%string] (mount 800 600 true) in
  let a1 := run random [Elapse 2000] (step random a Click) in
  let a2 := run random [Elapse 1500] (step random a1 Click) in
  targetSpeedRef (ctl (step random a1 Click)) = BURST_SPEED /\
  targetSpeedRef (ctl a2) = SUSTAINED_SPEED /\
  In ((now (ctl a) + 3500)%N, BurstTimer) (fired (ctl a2)) /\
  ((now (ctl a2) < now (ctl a1) + 3500)%N ->
   In (burstTimer (ctl a1)) (timers (ctl a2))).
Proof.
  apply (second_press_does_not_restart_the_burst (fun _ => 1 # 2) 800 600 true
           [Elapse 9000; Change "x"%string] [Elapse 2000] [Elapse 1500]).
  - reflexivity.
  - reflexivity.
  - repeat constructor.
  - repeat constructor.
  - vm_compute. reflexivity.
  - vm_compute. discriminate.
Defined.

(** ** Before the form *)

Section BeforeReady.

Variable random : nat -> Q.

Lemma Untouched_fire c t :
  Untouched c -> earliest (timers c) = Some t -> Untouched (fire t c).
Proof.
  intros (Hv & Hs & Ht & Hq) He. unfold Untouched.
  rewrite inputValue_fire, isSimulating_fire, targetSpeedRef_fire, timers_fire.
  pose proof (earliest_In _ _ He) as Hin.
  assert (Hcb : callback t <> BurstTimer)
    by (rewrite Forall_forall in Hq; now apply Hq).
  repeat split; try assumption.
  - destruct (callback t); try assumption; try reflexivity. now destruct Hcb.
  - apply Forall_app. split; [now apply Forall_without|].
    destruct (callback t); cbn [armed];
      repeat (apply Forall_cons; [cbn [callback]; discriminate|]); apply Forall_nil.
Qed.

Lemma ready_stays c t :
  Sequenced c -> earliest (timers c) = Some t ->
  phase c = ready -> phase (fire t c) = ready.
Proof.
  intros Hs He Hp. pose proof (fire_rank _ _ Hs He) as Hr. rewrite Hp in Hr.
  destruct (phase (fire t c)); cbn in Hr; try lia. reflexivity.
Qed.

Lemma not_rendered c : phase c <> ready -> formRendered c = false.
Proof.
  intro H. unfold formRendered. destruct (phase_eqb (phase c) ready) eqn:E.
  - apply phase_eqb_eq in E. contradiction.
  - apply andb_false_r.
Qed.

Lemma Untouched_run es a :
  Good a ->
  (phase (ctl a) <> ready -> Untouched (ctl a)) ->
  phase (ctl (run random es a)) <> ready -> Untouched (ctl (run random es a)).
Proof.
  apply (run_invariant random (fun a => phase (ctl a) <> ready -> Untouched (ctl a))).
  - intros x t Hs Hp He. rewrite ctl_fireApp. intro H.
    apply Untouched_fire; [|assumption]. apply Hp. intro Hr. apply H.
    now apply ready_stays.
  - intros x t Hp. cbn [ctl]. rewrite idle_eq. exact Hp.
  - intros x e _ Hp He. rewrite ctl_step.
    destruct e as [d| |w' h'|v| |]; cbn [stepControl]; try exact Hp.
    + now destruct (He d).
    + rewrite change_eq. destruct (formRendered (ctl x)) eqn:Ef; [|exact Hp].
      destruct (negb _); [|exact Hp]. cbn [andb phase]. intro H.
      rewrite (not_rendered _ H) in Ef. discriminate.
    + rewrite click_eq. destruct (formRendered (ctl x)) eqn:Ef; [|exact Hp].
      destruct (negb _); [|exact Hp]. cbn [andb phase]. intro H.
      rewrite (not_rendered _ H) in Ef. discriminate.
    + destruct (mounted (ctl x)); [|exact Hp]. rewrite unmountControl_eq.
      cbn [phase]. intro H. destruct (Hp H) as (Hv & Hs & Ht & Hq).
      unfold Untouched. cbn [inputValue isSimulating targetSpeedRef timers].
      repeat split; try assumption.
      destruct (silenceTimer (ctl x)); [now apply Forall_without|assumption].
Qed.

(** Until the phase is [ready] the form does not exist and nothing the
    user does reaches the state: the text is empty, the simulation flag is
    down, no timer of the click handler is pending and the target speed is
    the idle value; an edit or a press in such a state changes nothing.
    While the component is mounted this covers the first 9000 ms. *)
Theorem form_is_inert_before_ready (w h : N) (has2d : bool) (es : list Event)
    (v : string) :
  let a := run random es (mount w h has2d) in
  (phase (ctl a) <> ready ->
   Untouched (ctl a) /\
   step random a (Change v) = a /\ step random a Click = a) /\
  (mounted (ctl a) = true -> (now (ctl a) < 9000)%N -> phase (ctl a) <> ready).
Proof.
  intro a. split.
  - intro Hp. split.
    + revert Hp. apply Untouched_run; [apply Good_mount|].
      intros _. unfold Untouched. cbn. repeat split.
      apply Forall_cons; [discriminate|apply Forall_nil].
    + pose proof (not_rendered _ Hp) as Hf.
      destruct a as [c r]. cbn [step ctl view] in *.
      unfold change, click. rewrite Hf. split; reflexivity.
  - intros Hm Hlt. unfold a. rewrite (phase_at_now random w h has2d es Hm).
    fold a. unfold phaseAt.
    destruct (N.leb_spec 9000 (now (ctl a))); [lia|].
    destruct (6000 <=? now (ctl a))%N; [discriminate|].
    destruct (2500 <=? now (ctl a))%N; discriminate.
Qed.

End BeforeReady.

Lemma form_is_inert_before_ready_witness :
  let a := run (fun _ => 1 # 2) [Elapse 7000; Change "x"%string; Click; Frame]
             (mount 800 600 true) in
  Untouched (ctl a) /\
  step (fun _ => 1 # 2) a (Change "y"%string) = a /\ step (fun _ => 1 # 2) a Click = a.
Proof.
  apply (form_is_inert_before_ready (fun _ => 1 # 2) 800 600 true
           [Elapse 7000; Change "x"%string; Click; Frame] "y"%string).
  vm_compute. discriminate.
Defined.

(** ** The allocation of the stars *)

Lemma initStarsFrom_initialOK random n :
  unitRange random -> forall k, Forall initialOK (initStarsFrom random n k).
Proof.
  intro Hr. induction n as [|n IH]; intro k; cbn [initStarsFrom]; constructor; [|apply IH].
  unfold initStar, initialOK. cbn [Star.x Star.y Star.z Star.prevX Star.prevY].
  split; [apply randomCoord_range, Hr|]. split; [apply randomCoord_range, Hr|].
  split; [|split; reflexivity].
  destruct (Hr (2 + k)%nat) as [H0 H1]. unfold MIN_Z, MAX_Z. split; lra.
Qed.

Lemma initStarsFrom_nth random n : forall k i,
  (i < n)%nat ->
  nth_error (initStarsFrom random n k) i = Some (initStar random (3 * i + k)).
Proof.
  induction n as [|n IH]; intros k i Hi; [lia|].
  cbn [initStarsFrom]. destruct i as [|i]; [reflexivity|].
  cbn [nth_error]. rewrite IH by lia. do 2 f_equal. lia.
Qed.

(** With [Math.random()] in its range, [initStars] makes exactly 100 stars,
    each with both lateral coordinates from -1 (included) to 1 (excluded),
    a depth from [MIN_Z] (included) to [MAX_Z] (excluded) and no previous
    projection; the star of index [i] is made of the three random numbers
    of rank [3 i], [3 i + 1] and [3 i + 2] after those already taken, so
    that 300 numbers are taken in all and no two stars share one.  A star
    made at depth [MIN_Z] exactly is respawned by the first frame at any
    speed that is not negative. *)
Theorem initial_stars (random : nat -> Q) (r : Render) :
  unitRange random ->
  let r' := initStars random r in
  List.length (starsRef r') = 100%nat /\
  Forall initialOK (starsRef r') /\
  (forall i, (i < 100)%nat ->
     nth_error (starsRef r') i = Some (initStar random (3 * i + randomCalls r))) /\
  randomCalls r' = (300 + randomCalls r)%nat /\
  (forall s speed k, In s (starsRef r') -> Star.z s == MIN_Z -> 0 <= speed ->
     Star.z (fst (advanceStar random speed k s)) = MAX_Z).
Proof.
  intros Hr r'.
  assert (E : starsRef r' = initStarsFrom random NUM_STARS (randomCalls r))
    by (subst r'; now destruct r).
  assert (Ec : randomCalls r' = (300 + randomCalls r)%nat)
    by (subst r'; now destruct r).
  rewrite E, Ec.
  split; [apply initStarsFrom_length|].
  split; [now apply initStarsFrom_initialOK|].
  split; [intros i Hi; now apply initStarsFrom_nth|].
  split; [reflexivity|].
  intros s speed k _ Hz Hs. rewrite advanceStar_respawn; [reflexivity|].
  rewrite Hz. lra.
Qed.

Lemma initial_stars_witness :
  let random := fun _ : nat => 1 # 2 in
  let r := initialRender 800 600 true in
  let r' := initStars random r in
  List.length (starsRef r') = 100%nat /\
  Forall initialOK (starsRef r') /\
  (forall i, (i < 100)%nat ->
     nth_error (starsRef r') i = Some (initStar random (3 * i + randomCalls r))) /\
  randomCalls r' = (300 + randomCalls r)%nat /\
  (forall s speed k, In s (starsRef r') -> Star.z s == MIN_Z -> 0 <= speed ->
     Star.z (fst (advanceStar random speed k s)) = MAX_Z).
Proof.
  apply (initial_stars (fun _ => 1 # 2) (initialRender 800 600 true)).
  intro k. cbn. split; lra.
Defined.
